(** * analyze-osint-scraper: a shallow embedding of [main.py]

    The script fetches a list of pages, extracts their text, looks for
    keywords (case-insensitively) and IOCs (verbatim), and writes the
    matches to a CSV file.

    Conventions of the embedding.
    - A Python [str] is a [string] over the alphabet [char]: the code
      points below 256 and three capital symbols that have no lowercase
      form.  On this alphabet [str.lower], [str.isupper] and [str.isspace]
      are tabulated below, and each acts on a character on its own.
    - A Python [int] is a [Z].
    - The network, the HTML parser and the file system are the environment:
      [requests.get] is a function on an abstract world, BeautifulSoup's
      [get_text] a partial function, a file an [fs_entry]; what pandas does
      with the name of the output file is a parameter of the writer.
    - [logging] calls and [requests.get] calls are recorded, in program
      order, in a list of [event]s. *)

From Stdlib Require Import ZArith List Bool Lia Ascii.
From Stdlib Require Import Numbers.DecimalString Numbers.DecimalZ.
From Stdlib Require Strings.Byte.
Import ListNotations.

(* ================================================================= *)
(** ** Python strings *)

(** The characters of the model.  [Latin1 a] is the code point
    [nat_of_ascii a]; the three others are uppercase letters ([isupper()] is
    true of them) that [lower()] leaves as they are. *)
Inductive char : Type :=
| Latin1 (a : ascii)
| UpsilonHook
    (** U+03D2, Greek upsilon with hook symbol *)
| DoubleStruckC
    (** U+2102, double-struck capital C *)
| MathBoldA.
    (** U+1D400, mathematical bold capital A *)

Inductive string : Type :=
| EmptyString
| String (c : char) (s : string).

(** String literals stand for strings of code points below 128. *)
Fixpoint of_bytes (l : list Byte.byte) : string :=
  match l with
  | [] => EmptyString
  | b :: l' => String (Latin1 (ascii_of_byte b)) (of_bytes l')
  end.

Fixpoint to_bytes (s : string) : option (list Byte.byte) :=
  match s with
  | EmptyString => Some []
  | String (Latin1 a) s' => option_map (cons (byte_of_ascii a)) (to_bytes s')
  | String _ _ => None
  end.

Declare Scope pystr_scope.
Delimit Scope pystr_scope with pystr.
Bind Scope pystr_scope with string.
String Notation string of_bytes to_bytes : pystr_scope.

Open Scope pystr_scope.
Open Scope list_scope.

Module Char.

Definition eqb (c d : char) : bool :=
  match c, d with
  | Latin1 a, Latin1 b => Ascii.eqb a b
  | UpsilonHook, UpsilonHook => true
  | DoubleStruckC, DoubleStruckC => true
  | MathBoldA, MathBoldA => true
  | _, _ => false
  end.

End Char.

Module Str.

(** [s1 + s2] *)
Fixpoint append (s1 s2 : string) : string :=
  match s1 with
  | EmptyString => s2
  | String c s1' => String c (append s1' s2)
  end.

(** [len(s)] *)
Fixpoint length (s : string) : nat :=
  match s with
  | EmptyString => 0
  | String _ s' => S (length s')
  end.

(** [s1 == s2] *)
Fixpoint eqb (s1 s2 : string) : bool :=
  match s1, s2 with
  | EmptyString, EmptyString => true
  | String c1 s1', String c2 s2' => Char.eqb c1 c2 && eqb s1' s2'
  | _, _ => false
  end.

(** [hay.startswith(needle)] *)
Fixpoint prefix (needle hay : string) : bool :=
  match needle, hay with
  | EmptyString, _ => true
  | String _ _, EmptyString => false
  | String c needle', String d hay' => Char.eqb c d && prefix needle' hay'
  end.

(** The text of a string of the standard library, character by character
    (used for the decimal digits of [str]). *)
Fixpoint of_std (s : Stdlib.Strings.String.string) : string :=
  match s with
  | Stdlib.Strings.String.EmptyString => EmptyString
  | Stdlib.Strings.String.String a s' => String (Latin1 a) (of_std s')
  end.

End Str.

(** String concatenation is written [+++]; [++] stays list concatenation. *)
Infix "+++" := Str.append (right associativity, at level 60).

Module PyStr.

Definition LF : char := Latin1 (ascii_of_nat 10).
Definition CR : char := Latin1 (ascii_of_nat 13).
Definition DQUOTE : char := Latin1 (ascii_of_nat 34).
Definition COMMA : char := Latin1 (ascii_of_nat 44).

(** [needle in hay]: [needle] starts at some position of [hay]. *)
Fixpoint contains (needle hay : string) : bool :=
  Str.prefix needle hay
  || match hay with
     | EmptyString => false
     | String _ hay' => contains needle hay'
     end.

(** What [in] decides: [needle] occurs verbatim in [hay]. *)
Definition occurs_in (needle hay : string) : Prop :=
  exists before after, hay = before +++ needle +++ after.

Definition between (lo hi n : nat) : bool := Nat.leb lo n && Nat.leb n hi.

(** A-Z, and the capitals U+00C0-U+00DE without the multiplication sign
    U+00D7: the capitals below 256, each of which has a lowercase form 32
    code points further. *)
Definition is_latin_capital (c : char) : bool :=
  match c with
  | Latin1 a =>
      let n := nat_of_ascii a in
      between 65 90 n || (between 192 222 n && negb (Nat.eqb n 215))
  | _ => false
  end.

(** [c.isupper()] *)
Definition is_upper (c : char) : bool :=
  match c with
  | Latin1 _ => is_latin_capital c
  | UpsilonHook | DoubleStruckC | MathBoldA => true
  end.

(** [c.lower()] *)
Definition lower_char (c : char) : char :=
  match c with
  | Latin1 a =>
      if is_latin_capital c then Latin1 (ascii_of_nat (nat_of_ascii a + 32))
      else c
  | UpsilonHook | DoubleStruckC | MathBoldA => c
  end.

(** [s.lower()] *)
Fixpoint lower (s : string) : string :=
  match s with
  | EmptyString => EmptyString
  | String c s' => String (lower_char c) (lower s')
  end.

(** [s] holds an uppercase letter. *)
Fixpoint has_upper (s : string) : bool :=
  match s with
  | EmptyString => false
  | String c s' => is_upper c || has_upper s'
  end.

(** [s] holds one of the capitals below 256. *)
Fixpoint has_latin_capital (s : string) : bool :=
  match s with
  | EmptyString => false
  | String c s' => is_latin_capital c || has_latin_capital s'
  end.

(** [c.isspace()]: TAB..CR, FS..US, space, NEL, NBSP. *)
Definition is_space (c : char) : bool :=
  match c with
  | Latin1 a =>
      let n := nat_of_ascii a in
      between 9 13 n || between 28 32 n || Nat.eqb n 133 || Nat.eqb n 160
  | _ => false
  end.

Definition is_empty (s : string) : bool :=
  match s with EmptyString => true | String _ _ => false end.

Fixpoint lstrip (s : string) : string :=
  match s with
  | EmptyString => EmptyString
  | String c s' => if is_space c then lstrip s' else s
  end.

Fixpoint rstrip (s : string) : string :=
  match s with
  | EmptyString => EmptyString
  | String c s' =>
      let t := rstrip s' in
      if is_space c && is_empty t then EmptyString else String c t
  end.

(** [s.strip()] *)
Definition strip (s : string) : string := rstrip (lstrip s).

(** Every character of [s] is white space. *)
Fixpoint is_blank (s : string) : bool :=
  match s with
  | EmptyString => true
  | String c s' => is_space c && is_blank s'
  end.

(** [s[:n]] for [n >= 0]. *)
Fixpoint slice_to (n : nat) (s : string) : string :=
  match n, s with
  | O, _ => EmptyString
  | S _, EmptyString => EmptyString
  | S n', String c s' => String c (slice_to n' s')
  end.

(** [str(k)] for an integer [k]. *)
Definition str (k : Z) : string :=
  Str.of_std (NilZero.string_of_int (Z.to_int k)).

(** [range(lo, hi)] *)
Definition range (lo hi : Z) : list Z :=
  map (fun i => (lo + Z.of_nat i)%Z) (seq 0 (Z.to_nat (hi - lo))).

(** Text-mode iteration over a file ([for line in f]) with universal
    newlines: LF, CR and CR LF each end a line and are read as ["\n"],
    which stays at the end of the line; a last line without a line end is
    kept when it is not empty.  [cur] is the line read so far, [after_cr]
    says that the previous character was a CR. *)
Fixpoint lines_from (cur : string) (after_cr : bool) (s : string)
  : list string :=
  match s with
  | EmptyString => if is_empty cur then [] else [cur]
  | String c s' =>
      if Char.eqb c LF then
        if after_cr then lines_from cur false s'
        else (cur +++ String LF EmptyString) :: lines_from EmptyString false s'
      else if Char.eqb c CR then
        (cur +++ String LF EmptyString) :: lines_from EmptyString true s'
      else lines_from (cur +++ String c EmptyString) false s'
  end.

Definition file_lines (content : string) : list string :=
  lines_from EmptyString false content.

End PyStr.
Import PyStr.

(* ================================================================= *)
(** ** Data model *)

(** The dictionary appended to [results]: its four keys, in the order in
    which the literal lists them.  [None] is Python's [None]. *)
Record MatchRecord : Type := mkMatch {
  url : string;
  keyword : option string;
  ioc : option string;
  context : string
}.

(** What one call of [requests.get(current_url, timeout=10)] does. *)
Inductive reply : Type :=
| Response (status_code : Z) (content : string)
    (** the call returned a response *)
| RequestException
    (** it raised a [requests.exceptions.RequestException]
        (DNS failure, refused connection, timeout, ...) *)
| OtherException.
    (** it raised an exception of any other class *)

(** The messages handed to [logging]; the text of a caught exception is
    left out. *)
Inductive log_line : Type :=
| Info_scraping (current_url : string)
| Error_fetching (current_url : string)
| Error_general (url : string)
| Error_ioc_not_found (ioc_file_path : string)
| Error_ioc_read
| Info_saved (output_file : string)
| Error_saving.

Inductive event : Type :=
| Log (l : log_line)
| Get (current_url : string) (r : reply).

(** A path of the file system, as [read_iocs_from_file] sees it:
    [os.path.exists] is false; or it is true and [open] or the read raises
    (a directory, no permission, undecodable bytes); or the file's text. *)
Inductive fs_entry : Type :=
| Absent
| Unreadable
| Readable (content : string).

Record filesystem : Type := mkFs {
  entry : string -> fs_entry;
  writable : string -> bool
}.

(** Opening [path] for writing and writing it, after which the path holds
    [written]: [None] when it raises. *)
Definition write_file (fs : filesystem) (path : string) (written : fs_entry)
  : option filesystem :=
  if writable fs path
  then Some (mkFs (fun p => if Str.eqb p path then written else entry fs p)
                  (writable fs))
  else None.

(** The parsed command line ([setup_argparse]): [-k] and [-i] are optional,
    [--max_pages] is any integer. *)
Record Args : Type := mkArgs {
  args_keywords : option (list string);
  args_ioc_file : option string;
  args_urls : list string;
  args_output : string;
  args_max_pages : Z
}.

(* ================================================================= *)
(** ** [read_iocs_from_file] *)

Definition read_iocs_from_file (fs : filesystem) (ioc_file_path : string)
  : list string * list event :=
  match entry fs ioc_file_path with
  | Absent => ([], [Log (Error_ioc_not_found ioc_file_path)])
  | Unreadable => ([], [Log Error_ioc_read])
  | Readable content =>
      (map strip
           (filter (fun line => negb (is_empty (strip line)))
                   (file_lines content)),
       [])
  end.

(* ================================================================= *)
(** ** The matcher (the two [for] loops over [keywords] and [iocs]) *)

Fixpoint scan_keywords (current_url text_content : string)
    (keywords : list string) (results : list MatchRecord)
  : list MatchRecord :=
  match keywords with
  | [] => results
  | keyword :: rest =>
      let keyword := lower keyword in
      if contains keyword (lower text_content)
      then scan_keywords current_url text_content rest
             (results ++ [mkMatch current_url (Some keyword) None
                                  (slice_to 500 text_content)])
      else scan_keywords current_url text_content rest results
  end.

Fixpoint scan_iocs (current_url text_content : string)
    (iocs : list string) (results : list MatchRecord)
  : list MatchRecord :=
  match iocs with
  | [] => results
  | ioc :: rest =>
      if contains ioc text_content
      then scan_iocs current_url text_content rest
             (results ++ [mkMatch current_url None (Some ioc)
                                  (slice_to 500 text_content)])
      else scan_iocs current_url text_content rest results
  end.

(** The part of the loop body after [get_text]: [if keywords: ...] and
    [if iocs: ...]. *)
Definition match_page (current_url text_content : string)
    (keywords iocs : list string) (results : list MatchRecord)
  : list MatchRecord :=
  let results :=
    match keywords with
    | [] => results
    | _ :: _ => scan_keywords current_url text_content keywords results
    end in
  match iocs with
  | [] => results
  | _ :: _ => scan_iocs current_url text_content iocs results
  end.

(* ================================================================= *)
(** ** [scrape_url] *)

(** The URL of page [page_num] of [url]. *)
Definition page_url (url : string) (page_num : Z) : string :=
  if (1 <? page_num)%Z then
    if contains "?" url
    then url +++ "&page=" +++ str page_num
    else url +++ "?page=" +++ str page_num
  else url.

(** [response.raise_for_status()] raises an [HTTPError], which is a
    [RequestException], on a 4xx or 5xx status. *)
Definition raises_for_status (status_code : Z) : bool :=
  ((400 <=? status_code) && (status_code <? 600))%Z.

(** How one iteration of the page loop ends: it falls through or
    [continue]s, or an exception leaves the loop for the outer handler. *)
Inductive flow : Type := Continue | Raised.

Section Scraper.

(** The network: the state of the world and what a GET does to it. *)
Variable World : Type.
Variable requests_get : string -> World -> reply * World.

(** [BeautifulSoup(content, 'html.parser').get_text()]; [None] when the
    parser raises. *)
Variable get_text : string -> option string.

Record state : Type := mkState {
  world : World;
  trace : list event
}.

Definition log (l : log_line) (st : state) : state :=
  mkState (world st) (trace st ++ [Log l]).

Definition get (current_url : string) (st : state) : reply * state :=
  let (r, w) := requests_get current_url (world st) in
  (r, mkState w (trace st ++ [Get current_url r])).

(** One iteration of [for page_num in range(1, max_pages + 1)]. *)
Definition scrape_page (url : string) (keywords iocs : list string)
    (page_num : Z) (results : list MatchRecord) (st : state)
  : flow * list MatchRecord * state :=
  let current_url := page_url url page_num in
  let st := log (Info_scraping current_url) st in
  let (r, st) := get current_url st in
  match r with
  | RequestException =>
      (Continue, results, log (Error_fetching current_url) st)
  | OtherException => (Raised, results, st)
  | Response status_code content =>
      if raises_for_status status_code
      then (Continue, results, log (Error_fetching current_url) st)
      else
        match get_text content with
        | None => (Raised, results, st)
        | Some text_content =>
            (Continue,
             match_page current_url text_content keywords iocs results,
             st)
        end
  end.

Fixpoint scrape_pages (url : string) (keywords iocs : list string)
    (pages : list Z) (results : list MatchRecord) (st : state)
  : flow * list MatchRecord * state :=
  match pages with
  | [] => (Continue, results, st)
  | page_num :: rest =>
      match scrape_page url keywords iocs page_num results st with
      | (Continue, results, st) =>
          scrape_pages url keywords iocs rest results st
      | (Raised, results, st) => (Raised, results, st)
      end
  end.

(** [scrape_url]: the list it returns, the world it leaves and the events
    of the call.  [results] is mutated in place, so what was appended
    before an exception is still returned. *)
Definition scrape_url (url : string) (keywords iocs : list string)
    (max_pages : Z) (w : World)
  : list MatchRecord * World * list event :=
  match scrape_pages url keywords iocs (range 1 (max_pages + 1)) []
                     (mkState w []) with
  | (Continue, results, st) => (results, world st, trace st)
  | (Raised, results, st) =>
      (results, world st, trace st ++ [Log (Error_general url)])
  end.

(** [for url in args.urls: all_results.extend(scrape_url(...))] *)
Fixpoint scrape_all (urls : list string) (keywords iocs : list string)
    (max_pages : Z) (all_results : list MatchRecord) (st : state)
  : list MatchRecord * state :=
  match urls with
  | [] => (all_results, st)
  | url :: rest =>
      let '(results, w, events) :=
        scrape_url url keywords iocs max_pages (world st) in
      scrape_all rest keywords iocs max_pages (all_results ++ results)
                 (mkState w (trace st ++ events))
  end.

End Scraper.

Arguments mkState {World} _ _.
Arguments world {World} _.
Arguments trace {World} _.
Arguments log {World} _ _.
Arguments get {World} _ _ _.
Arguments scrape_page {World} _ _ _ _ _ _ _ _.
Arguments scrape_pages {World} _ _ _ _ _ _ _ _.
Arguments scrape_url {World} _ _ _ _ _ _ _.
Arguments scrape_all {World} _ _ _ _ _ _ _ _.

(* ================================================================= *)
(** ** [save_results_to_csv] *)

(** The text that [pd.DataFrame(results).to_csv(output_file, index=False)]
    produces, for a list of dictionaries that all have the keys of
    [MatchRecord].

    - The frame's columns are the keys met in the dictionaries, in order of
      first appearance: the four keys when there is a record, none when
      [results] is empty.
    - [to_csv] writes the row of column names, then one row per record, each
      ended by the line separator of the platform, here a line feed; [None]
      is a missing value and is written as the empty string.
    - The rows go through Python's [csv] writer with a comma as delimiter,
      a line feed as line terminator and minimal quoting: a cell is quoted
      when it holds a comma, a double quote or a line feed (a carriage
      return alone does not make it quoted), and a double quote inside it
      is doubled; a row made of one empty cell is written as two double
      quotes. *)
Module Csv.

Fixpoint needs_quotes (s : string) : bool :=
  match s with
  | EmptyString => false
  | String c s' =>
      Char.eqb c COMMA || Char.eqb c DQUOTE || Char.eqb c LF
      || needs_quotes s'
  end.

Fixpoint double_quotes (s : string) : string :=
  match s with
  | EmptyString => EmptyString
  | String c s' =>
      if Char.eqb c DQUOTE
      then String DQUOTE (String DQUOTE (double_quotes s'))
      else String c (double_quotes s')
  end.

Definition field (s : string) : string :=
  if needs_quotes s
  then String DQUOTE (double_quotes s +++ String DQUOTE EmptyString)
  else s.

Fixpoint join (sep : string) (cells : list string) : string :=
  match cells with
  | [] => EmptyString
  | [c] => c
  | c :: cells' => c +++ sep +++ join sep cells'
  end.

(** One written row. *)
Definition row (cells : list string) : string :=
  match cells with
  | [c] =>
      if is_empty c
      then String DQUOTE (String DQUOTE (String LF EmptyString))
      else field c +++ String LF EmptyString
  | _ => join "," (map field cells) +++ String LF EmptyString
  end.

Definition columns (results : list MatchRecord) : list string :=
  match results with
  | [] => []
  | _ :: _ => ["url"; "keyword"; "ioc"; "context"]
  end.

Definition cell (v : option string) : string :=
  match v with
  | None => EmptyString
  | Some s => s
  end.

Definition cells (r : MatchRecord) : list string :=
  [url r; cell (keyword r); cell (ioc r); context r].

Fixpoint rows (results : list MatchRecord) : string :=
  match results with
  | [] => EmptyString
  | r :: results' => row (cells r) +++ rows results'
  end.

Definition to_csv (results : list MatchRecord) : string :=
  row (columns results) +++ rows results.


End Csv.

Section Writer.

(** What pandas does with the name of the output file.
    [infer_compression output_file] is the compression it infers from the
    extension of the name ([None]: the file is written as plain text), and
    [archive method text] is what the path holds once [text] has been
    written through the compression [method]. *)
Variable infer_compression : string -> option string.
Variable archive : string -> string -> fs_entry.

Definition written_entry (output_file text : string) : fs_entry :=
  match infer_compression output_file with
  | None => Readable text
  | Some method => archive method text
  end.

Definition save_results_to_csv (results : list MatchRecord)
    (output_file : string) (fs : filesystem)
  : filesystem * list event :=
  match write_file fs output_file
                   (written_entry output_file (Csv.to_csv results)) with
  | Some fs' => (fs', [Log (Info_saved output_file)])
  | None => (fs, [Log Error_saving])
  end.

End Writer.

(* ================================================================= *)
(** ** [main] *)

Section Main.

Variable infer_compression : string -> option string.
Variable archive : string -> string -> fs_entry.
Variable World : Type.
Variable requests_get : string -> World -> reply * World.
Variable get_text : string -> option string.

(** [keywords = args.keywords if args.keywords else []] *)
Definition main_keywords (args : Args) : list string :=
  match args_keywords args with
  | Some (k :: ks) => k :: ks
  | _ => []
  end.

(** [iocs = []], and [read_iocs_from_file(args.ioc_file)] when a non-empty
    path was given. *)
Definition main_iocs (args : Args) (fs : filesystem)
  : list string * list event :=
  match args_ioc_file args with
  | Some (String c path) => read_iocs_from_file fs (String c path)
  | _ => ([], [])
  end.

(** The ResultSet handed to the writer, and the state in which it is. *)
Definition collect (args : Args) (fs : filesystem) (w : World)
  : list MatchRecord * state World :=
  let keywords := main_keywords args in
  let (iocs, events) := main_iocs args fs in
  scrape_all requests_get get_text (args_urls args) keywords iocs
             (args_max_pages args) [] (mkState w events).

Definition main (args : Args) (fs : filesystem) (w : World)
  : filesystem * World * list event :=
  let (all_results, st) := collect args fs w in
  let (fs', events) :=
    save_results_to_csv infer_compression archive all_results
                        (args_output args) fs in
  (fs', world st, trace st ++ events).

End Main.

Arguments collect {World} _ _ _ _ _.
Arguments main _ _ {World} _ _ _ _ _.

(* ================================================================= *)
(** ** Reading a trace *)

(** The fetch attempts of a trace, in order, each with what became of it. *)
Fixpoint fetches (events : list event) : list (string * reply) :=
  match events with
  | [] => []
  | Get current_url r :: events' => (current_url, r) :: fetches events'
  | Log _ :: events' => fetches events'
  end.

(** The attempt failed as a fetch: a network error or a 4xx/5xx status. *)
Definition fetch_failed (r : reply) : bool :=
  match r with
  | RequestException => true
  | Response status_code _ => raises_for_status status_code
  | OtherException => false
  end.

(** The attempt completed with a non-error status. *)
Definition fetch_succeeded (r : reply) : bool :=
  match r with
  | Response status_code _ => negb (raises_for_status status_code)
  | _ => false
  end.

(** A small network for examples: the world is the list of the replies
    still to come, whatever the URL; when it is used up, connections are
    refused. *)
Definition scripted_get (current_url : string) (w : list reply)
  : reply * list reply :=
  match w with
  | [] => (RequestException, [])
  | r :: w' => (r, w')
  end.

(** Some suffix of [s] is [suffix]: [s.endswith(suffix)]. *)
Fixpoint ends_with (suffix s : string) : bool :=
  Str.eqb s suffix
  || match s with
     | EmptyString => false
     | String _ s' => ends_with suffix s'
     end.

(** The inference of pandas 2, for examples: the first extension of its
    table that ends the lowercased file name. *)
Definition by_extension (output_file : string) : option string :=
  let name := lower output_file in
  if ends_with ".tar" name || ends_with ".tar.gz" name
     || ends_with ".tar.bz2" name || ends_with ".tar.xz" name
  then Some "tar"
  else if ends_with ".gz" name then Some "gzip"
  else if ends_with ".bz2" name then Some "bz2"
  else if ends_with ".zip" name then Some "zip"
  else if ends_with ".xz" name then Some "xz"
  else if ends_with ".zst" name then Some "zstd"
  else None.

(** An archive for examples: it does not read as text. *)
Definition binary_archive (method text : string) : fs_entry := Unreadable.

(** An extractor for examples: the page is already plain text. *)
Definition plain_text (content : string) : option string := Some content.

(** An extractor for examples whose parser raises on a document that
    starts with a marked section, ["<!["]. *)
Definition strict_text (content : string) : option string :=
  if Str.prefix "<![" content then None else Some content.

(* ================================================================= *)
(** ** The matcher and the page loop in the words of the specification *)

(** The keyword occurs in the text once both are lowercased: the test of
    the keyword loop. *)
Definition occurs_ignoring_case (k text : string) : Prop :=
  occurs_in (lower k) (lower text).

Definition keyword_hit (text k : string) : bool :=
  contains (lower k) (lower text).

Definition ioc_hit (text i : string) : bool := contains i text.

Definition keyword_record (current_url text k : string) : MatchRecord :=
  mkMatch current_url (Some (lower k)) None (slice_to 500 text).

Definition ioc_record (current_url text i : string) : MatchRecord :=
  mkMatch current_url None (Some i) (slice_to 500 text).

(** One record per keyword that hits, in list order; then one per IOC that
    hits, in list order. *)
Definition keyword_records (current_url text : string)
    (keywords : list string) : list MatchRecord :=
  map (keyword_record current_url text) (filter (keyword_hit text) keywords).

Definition ioc_records (current_url text : string) (iocs : list string)
  : list MatchRecord :=
  map (ioc_record current_url text) (filter (ioc_hit text) iocs).

Definition page_matches (current_url text : string)
    (keywords iocs : list string) : list MatchRecord :=
  keyword_records current_url text keywords
  ++ ioc_records current_url text iocs.

(** The records of a result list that name the keyword [kw]. *)
Definition keyword_hits (kw : string) (results : list MatchRecord)
  : list MatchRecord :=
  filter (fun r => match keyword r with
                   | Some k => Str.eqb k kw
                   | None => false
                   end) results.

(** The text of a fetched page, when the fetch succeeded and the extractor
    returned. *)
Definition page_text (get_text : string -> option string) (r : reply)
  : option string :=
  match r with
  | Response status_code content =>
      if raises_for_status status_code then None else get_text content
  | _ => None
  end.

(** What one fetch attempt contributes to the result list. *)
Definition page_records (get_text : string -> option string)
    (keywords iocs : list string) (f : string * reply) : list MatchRecord :=
  match page_text get_text (snd f) with
  | Some text => page_matches (fst f) text keywords iocs
  | None => []
  end.

(** The attempt ended in an exception that is not a [RequestException]:
    [requests.get] raised one, or the parser did on a page that was
    fetched. *)
Definition aborts (get_text : string -> option string) (r : reply) : bool :=
  match r with
  | OtherException => true
  | RequestException => false
  | Response status_code content =>
      negb (raises_for_status status_code)
      && match get_text content with None => true | Some _ => false end
  end.

(** The shape of the attempts of one target over the pages [pages]: page
    after page, until the pages are used up or an attempt aborts. *)
Inductive run_shape (get_text : string -> option string) (url : string)
  : list Z -> flow -> list (string * reply) -> Prop :=
| shape_done : run_shape get_text url [] Continue []
| shape_next : forall page_num pages fl r fs,
    aborts get_text r = false ->
    run_shape get_text url pages fl fs ->
    run_shape get_text url (page_num :: pages) fl
              ((page_url url page_num, r) :: fs)
| shape_abort : forall page_num pages r,
    aborts get_text r = true ->
    run_shape get_text url (page_num :: pages) Raised
              [(page_url url page_num, r)].

(** The page numbers [1 .. n]. *)
Definition pages_upto (n : nat) : list Z := map Z.of_nat (seq 1 n).

(** The list entry [k'] names the same keyword as [k] once lowercased. *)
Definition same_keyword (k k' : string) : bool :=
  Str.eqb (lower k') (lower k).

(** The run of [main]'s loop read target by target: for each target, in
    order, its URL, the list [scrape_url] returned and the events of the
    call. *)
Record target_run : Type := mkRun {
  run_url : string;
  run_results : list MatchRecord;
  run_events : list event
}.

Section Runs.

Variable World : Type.
Variable requests_get : string -> World -> reply * World.
Variable get_text : string -> option string.

Fixpoint target_runs (urls : list string) (keywords iocs : list string)
    (max_pages : Z) (w : World) : list target_run * World :=
  match urls with
  | [] => ([], w)
  | url :: rest =>
      let '(results, w1, events) :=
        scrape_url requests_get get_text url keywords iocs max_pages w in
      let (runs, w2) := target_runs rest keywords iocs max_pages w1 in
      (mkRun url results events :: runs, w2)
  end.

End Runs.

Arguments target_runs {World} _ _ _ _ _ _ _.

(** [run_chain ... w urls runs w']: [runs] are the calls of [scrape_url] on
    the targets [urls], one after the other, the first from the world [w],
    each from the world the one before left, the last leaving [w']. *)
Inductive run_chain {World : Type}
    (requests_get : string -> World -> reply * World)
    (get_text : string -> option string)
    (keywords iocs : list string) (max_pages : Z)
  : World -> list string -> list target_run -> World -> Prop :=
| chain_done : forall w,
    run_chain requests_get get_text keywords iocs max_pages w [] [] w
| chain_call : forall w url results w1 events urls runs w2,
    scrape_url requests_get get_text url keywords iocs max_pages w
    = (results, w1, events) ->
    run_chain requests_get get_text keywords iocs max_pages w1 urls runs w2 ->
    run_chain requests_get get_text keywords iocs max_pages w (url :: urls)
              (mkRun url results events :: runs) w2.

(** A trimmed, non-empty string: its first and its last character are not
    white space. *)
Fixpoint last_char (c : char) (s : string) : char :=
  match s with
  | EmptyString => c
  | String d s' => last_char d s'
  end.

Definition is_trimmed (s : string) : bool :=
  match s with
  | EmptyString => false
  | String c s' => negb (is_space c) && negb (is_space (last_char c s'))
  end.

(* ================================================================= *)
(** ** Reading the log *)

(** The events of one fetch attempt: it is announced, issued, and reported
    when it failed as a fetch. *)
Definition attempt_events (f : string * reply) : list event :=
  [Log (Info_scraping (fst f)); Get (fst f) (snd f)]
  ++ (if fetch_failed (snd f) then [Log (Error_fetching (fst f))] else []).

(** One of the attempts ended in an exception for the general handler. *)
Definition any_aborts (get_text : string -> option string)
    (fs : list (string * reply)) : bool :=
  existsb (fun f => aborts get_text (snd f)) fs.

(** [l1] is an initial segment of [l2]. *)
Definition is_prefix {A : Type} (l1 l2 : list A) : Prop :=
  exists rest, l2 = l1 ++ rest.

(** The event is the writer's report: saved, or failed to save. *)
Definition is_save_log (e : event) : bool :=
  match e with
  | Log (Info_saved _) => true
  | Log Error_saving => true
  | _ => false
  end.

(** [s] holds a line feed or a carriage return. *)
Fixpoint has_line_end (s : string) : bool :=
  match s with
  | EmptyString => false
  | String c s' => Char.eqb c LF || Char.eqb c CR || has_line_end s'
  end.

(** The same text with every line feed written as [nl]: the file as an
    editor with another line-end convention saves it. *)
Fixpoint with_line_end (nl : string) (s : string) : string :=
  match s with
  | EmptyString => EmptyString
  | String c s' =>
      if Char.eqb c LF then nl +++ with_line_end nl s'
      else String c (with_line_end nl s')
  end.

(** [s] holds a carriage return. *)
Fixpoint has_cr (s : string) : bool :=
  match s with
  | EmptyString => false
  | String c s' => Char.eqb c CR || has_cr s'
  end.

(* ================================================================= *)
(** * Sanity checks on concrete inputs *)

Example str_12 : str 12 = "12". Proof. reflexivity. Qed.

Example str_0 : str 0 = "0". Proof. reflexivity. Qed.

Example range_1_4 : range 1 4 = [1; 2; 3]%Z. Proof. reflexivity. Qed.

Example range_1_1 : range 1 1 = []. Proof. reflexivity. Qed.

Example range_1_neg : range 1 (-3) = []. Proof. reflexivity. Qed.

Example lower_ex : lower "MalWare 1" = "malware 1". Proof. reflexivity. Qed.

Example contains_ex : contains "war" "malware" = true. Proof. reflexivity. Qed.

Example contains_empty : contains "" "" = true. Proof. reflexivity. Qed.

Example strip_ex : strip "  a b  " = "a b". Proof. reflexivity. Qed.

Example slice_ex : slice_to 3 "abcdef" = "abc". Proof. reflexivity. Qed.

Example lines_ex :
  file_lines ("a" +++ String CR (String LF ("b" +++ String CR "c")))
  = ["a" +++ String LF ""; "b" +++ String LF ""; "c"].
Proof. reflexivity. Qed.

Example spec_example_malware :
  scrape_url scripted_get plain_text "http://ex.test" ["malware"] [] 1
             [Response 200 "This site discusses Malware campaigns."]
  = ([mkMatch "http://ex.test" (Some "malware") None
              "This site discusses Malware campaigns."],
     [],
     [Log (Info_scraping "http://ex.test");
      Get "http://ex.test"
          (Response 200 "This site discusses Malware campaigns.")]).
Proof. reflexivity. Qed.

Example spec_example_pages :
  map fst (fetches (snd (scrape_url scripted_get plain_text
                           "http://ex.test?id=1" [] [] 3 [])))
  = ["http://ex.test?id=1"; "http://ex.test?id=1&page=2";
     "http://ex.test?id=1&page=3"].
Proof. reflexivity. Qed.

Example empty_csv : Csv.to_csv [] = String LF EmptyString.
Proof. reflexivity. Qed.

Example bare_cr_is_not_quoted :
  Csv.row ["a" +++ String CR "b"; "x"]
  = "a" +++ String CR ("b,x" +++ String LF "").
Proof. reflexivity. Qed.

Example plain_name_is_not_compressed :
  by_extension "output.csv" = None /\ by_extension "Out.CSV.GZ" = Some "gzip".
Proof. split; reflexivity. Qed.

Example one_row_csv :
  Csv.to_csv [mkMatch "http://ex.test" None (Some "a,b") "ctx"]
  = "url,keyword,ioc,context" +++ String LF
      ("http://ex.test,," +++ String DQUOTE ("a,b" +++ String DQUOTE (",ctx" +++ String LF EmptyString))).
Proof. reflexivity. Qed.

(* ================================================================= *)
(** * Strings *)

Section StringFacts.

Lemma append_nil_r (s : string) : s +++ "" = s.
Proof. induction s; simpl; congruence. Qed.

Lemma append_assoc (a b c : string) : (a +++ b) +++ c = a +++ b +++ c.
Proof. induction a; simpl; congruence. Qed.

Lemma char_eqb_eq (c d : char) : Char.eqb c d = true <-> c = d.
Proof.
  destruct c as [a| | |], d as [b| | |]; simpl;
    try (split; [discriminate | congruence]); try tauto.
  rewrite Ascii.eqb_eq. split; congruence.
Qed.


Lemma str_eqb_eq (s t : string) : Str.eqb s t = true <-> s = t.
Proof.
  revert t; induction s as [|c s IH]; intros [|d t]; simpl;
    try (split; [discriminate | congruence]); try tauto.
  rewrite andb_true_iff, char_eqb_eq, IH. split.
  - intros [-> ->]. reflexivity.
  - intros H. injection H. auto.
Qed.

Lemma str_eqb_refl (s : string) : Str.eqb s s = true.
Proof. now apply str_eqb_eq. Qed.

Lemma str_eqb_neq (s t : string) : Str.eqb s t = false <-> s <> t.
Proof.
  rewrite <- str_eqb_eq. destruct (Str.eqb s t); split; congruence.
Qed.

Lemma prefix_iff (needle hay : string) :
  Str.prefix needle hay = true <-> exists rest, hay = needle +++ rest.
Proof.
  revert hay; induction needle as [|c needle IH]; intros hay; simpl.
  - split; [intros _; now exists hay | reflexivity].
  - destruct hay as [|d hay].
    + split; [discriminate | intros [rest H]; discriminate].
    + rewrite andb_true_iff, char_eqb_eq, IH. split.
      * intros [-> [rest ->]]. now exists rest.
      * intros [rest H]. injection H as -> ->. split; [reflexivity|].
        now exists rest.
Qed.

Lemma contains_nil (needle : string) :
  contains needle "" = Str.prefix needle "" || false.
Proof. reflexivity. Qed.

Lemma contains_cons (needle : string) (c : char) (hay : string) :
  contains needle (String c hay)
  = Str.prefix needle (String c hay) || contains needle hay.
Proof. reflexivity. Qed.

Lemma contains_iff (needle hay : string) :
  contains needle hay = true <-> occurs_in needle hay.
Proof.
  unfold occurs_in.
  induction hay as [|c hay IH].
  - rewrite contains_nil, orb_false_r, prefix_iff. split.
    + intros [rest H]. now exists "", rest.
    + intros [[|? ?] [after H]]; [|discriminate]. now exists after.
  - rewrite contains_cons, orb_true_iff, IH, prefix_iff. split.
    + intros [[rest H]|[before [after H]]].
      * now exists "", rest.
      * exists (String c before), after. simpl. congruence.
    + intros [[|d before] [after H]]; simpl in H.
      * left. now exists after.
      * right. exists before, after. congruence.
Qed.

Lemma contains_false_iff (needle hay : string) :
  contains needle hay = false <-> ~ occurs_in needle hay.
Proof.
  rewrite <- contains_iff. destruct (contains needle hay); split; congruence.
Qed.

Lemma contains_empty_needle (hay : string) : contains "" hay = true.
Proof. apply contains_iff. now exists "", hay. Qed.

(** A capital below 256 is changed by [lower]. *)
Lemma lower_char_latin_capital (c : char) :
  is_latin_capital c = true -> lower_char c <> c.
Proof.
  destruct c as [a| | |]; try discriminate.
  destruct a as [[] [] [] [] [] [] [] []]; vm_compute;
    intros H; try discriminate H; discriminate.
Qed.

Lemma lower_changes (s : string) :
  has_latin_capital s = true -> lower s <> s.
Proof.
  induction s as [|c s IH]; simpl; [discriminate|].
  rewrite orb_true_iff. intros [H|H] E; injection E as Ec Es.
  - now apply (lower_char_latin_capital c).
  - now apply IH.
Qed.

End StringFacts.

(* ================================================================= *)
(** * The matcher *)

Section Matcher.

Variables current_url text : string.

Lemma scan_keywords_spec (keywords : list string) :
  forall results,
    scan_keywords current_url text keywords results
    = results ++ keyword_records current_url text keywords.
Proof.
  unfold keyword_records.
  induction keywords as [|k ks IH]; intros results; simpl.
  - now rewrite app_nil_r.
  - unfold keyword_hit at 1.
    destruct (contains (lower k) (lower text)); rewrite IH; simpl.
    + now rewrite <- app_assoc.
    + reflexivity.
Qed.

Lemma scan_iocs_spec (iocs : list string) :
  forall results,
    scan_iocs current_url text iocs results
    = results ++ ioc_records current_url text iocs.
Proof.
  unfold ioc_records.
  induction iocs as [|i iocs' IH]; intros results; simpl.
  - now rewrite app_nil_r.
  - unfold ioc_hit at 1.
    destruct (contains i text); rewrite IH; simpl.
    + now rewrite <- app_assoc.
    + reflexivity.
Qed.

(** The loop body appends to [results] what the specification lists. *)
Lemma match_page_spec (keywords iocs : list string) results :
  match_page current_url text keywords iocs results
  = results ++ page_matches current_url text keywords iocs.
Proof.
  unfold match_page, page_matches.
  assert (K : match keywords with
              | [] => results
              | _ :: _ => scan_keywords current_url text keywords results
              end = results ++ keyword_records current_url text keywords).
  { destruct keywords; [now rewrite app_nil_r | apply scan_keywords_spec]. }
  rewrite K.
  destruct iocs as [|i iocs'].
  - simpl. now rewrite app_nil_r.
  - rewrite scan_iocs_spec. now rewrite app_assoc.
Qed.

Lemma keyword_records_app (ks1 ks2 : list string) :
  keyword_records current_url text (ks1 ++ ks2)
  = keyword_records current_url text ks1
    ++ keyword_records current_url text ks2.
Proof. unfold keyword_records. now rewrite filter_app, map_app. Qed.

Lemma in_keyword_records (r : MatchRecord) (keywords : list string) :
  In r (keyword_records current_url text keywords) <->
  exists k, In k keywords /\ keyword_hit text k = true
            /\ r = keyword_record current_url text k.
Proof.
  unfold keyword_records. rewrite in_map_iff. split.
  - intros [k [E H]]. apply filter_In in H as [H1 H2]. now exists k.
  - intros [k [H1 [H2 E]]]. exists k. split; [auto|].
    apply filter_In. now split.
Qed.

Lemma in_ioc_records (r : MatchRecord) (iocs : list string) :
  In r (ioc_records current_url text iocs) <->
  exists i, In i iocs /\ ioc_hit text i = true
            /\ r = ioc_record current_url text i.
Proof.
  unfold ioc_records. rewrite in_map_iff. split.
  - intros [i [E H]]. apply filter_In in H as [H1 H2]. now exists i.
  - intros [i [H1 [H2 E]]]. exists i. split; [auto|].
    apply filter_In. now split.
Qed.

Lemma keyword_hits_app (kw : string) (rs1 rs2 : list MatchRecord) :
  keyword_hits kw (rs1 ++ rs2) = keyword_hits kw rs1 ++ keyword_hits kw rs2.
Proof. apply filter_app. Qed.

Lemma keyword_hits_ioc_records (kw : string) (iocs : list string) :
  keyword_hits kw (ioc_records current_url text iocs) = [].
Proof.
  unfold ioc_records, keyword_hits.
  induction (filter (ioc_hit text) iocs); simpl; auto.
Qed.

(** Among the keyword records, those naming [lower k] are one per list
    entry that lowercases to it. *)
Lemma keyword_hits_keyword_records (k : string) (keywords : list string) :
  keyword_hit text k = true ->
  keyword_hits (lower k) (keyword_records current_url text keywords)
  = repeat (keyword_record current_url text k)
           (List.length (filter (same_keyword k) keywords)).
Proof.
  intros Hk. unfold keyword_records, keyword_hits.
  induction keywords as [|k' ks IH]; simpl; [reflexivity|].
  unfold same_keyword at 1.
  destruct (Str.eqb (lower k') (lower k)) eqn:E.
  - apply str_eqb_eq in E.
    assert (Hk' : keyword_hit text k' = true)
      by (unfold keyword_hit in *; now rewrite E).
    rewrite Hk'. simpl. rewrite E, str_eqb_refl, IH.
    unfold keyword_record. now rewrite E.
  - destruct (keyword_hit text k'); simpl; [rewrite E|]; apply IH.
Qed.

Lemma slice_to_prefix (n : nat) (s : string) :
  exists rest, s = slice_to n s +++ rest.
Proof.
  revert s; induction n as [|n IH]; intros s.
  - now exists s.
  - destruct s as [|c s]; [now exists ""|].
    destruct (IH s) as [rest H]. exists rest. simpl. congruence.
Qed.

Lemma slice_to_length (n : nat) (s : string) :
  Str.length (slice_to n s) = Nat.min n (Str.length s).
Proof.
  revert s; induction n as [|n IH]; intros [|c s]; simpl; auto.
Qed.

End Matcher.

Lemma lower_char_not_latin_capital (c : char) :
  is_latin_capital (lower_char c) = false.
Proof.
  destruct c as [a| | |]; try reflexivity.
  destruct a as [[] [] [] [] [] [] [] []]; reflexivity.
Qed.

Lemma lower_has_no_latin_capital (s : string) :
  has_latin_capital (lower s) = false.
Proof.
  induction s as [|c s IH]; simpl; [reflexivity|].
  now rewrite lower_char_not_latin_capital, IH.
Qed.

Lemma in_page_matches (current_url text : string) (keywords iocs : list string)
    (r : MatchRecord) :
  In r (page_matches current_url text keywords iocs) <->
  (exists k, In k keywords /\ keyword_hit text k = true
             /\ r = keyword_record current_url text k)
  \/ (exists i, In i iocs /\ ioc_hit text i = true
                /\ r = ioc_record current_url text i).
Proof.
  unfold page_matches.
  now rewrite in_app_iff, in_keyword_records, in_ioc_records.
Qed.

(** C1, as the code has it.  Take a keyword list with the entry [k] in it,
    and a page text in which [k] occurs once both are lowercased (the test of
    the code).  Then the matcher emits exactly one record for that entry: the
    records of the page are those of the entries before it, then this one
    record, then those of the entries after it and of the IOCs.  The record
    has the keyword field set (to the lowercased keyword), a null ioc field,
    and as context the first 500 characters of the text in its original
    case.  However often the keyword occurs in the text, the records naming
    it are one per list entry that lowercases to it, so exactly one when no
    other entry does. *)
Theorem C1_keyword_hit_emits_one_record
    (current_url text : string) (before : list string) (k : string)
    (after iocs : list string) :
  occurs_ignoring_case k text ->
  let r := mkMatch current_url (Some (lower k)) None (slice_to 500 text) in
  let out := match_page current_url text (before ++ k :: after) iocs [] in
  out = match_page current_url text before [] []
        ++ r :: match_page current_url text after iocs []
  /\ keyword_hits (lower k) out
     = repeat r (List.length (filter (same_keyword k) (before ++ k :: after)))
  /\ ((forall k', In k' (before ++ after) -> lower k' <> lower k) ->
      keyword_hits (lower k) out = [r])
  /\ (exists rest, text = context r +++ rest)
  /\ Str.length (context r) = Nat.min 500 (Str.length text).
Proof.
  intros Hocc r out.
  assert (Hk : keyword_hit text k = true) by now apply contains_iff.
  assert (Hout : out = keyword_records current_url text before
                       ++ r :: keyword_records current_url text after
                       ++ ioc_records current_url text iocs).
  { unfold out. rewrite match_page_spec. simpl. unfold page_matches.
    rewrite keyword_records_app. unfold keyword_records at 2. simpl.
    rewrite Hk. simpl. now rewrite <- app_assoc. }
  assert (Hcount : keyword_hits (lower k) out
     = repeat r (List.length (filter (same_keyword k) (before ++ k :: after)))).
  { unfold out. rewrite match_page_spec. simpl. unfold page_matches.
    rewrite keyword_hits_app, keyword_hits_ioc_records, app_nil_r.
    now apply keyword_hits_keyword_records. }
  split; [|split; [|split; [|split]]].
  - rewrite Hout, !match_page_spec. simpl. unfold page_matches.
    now rewrite app_nil_r.
  - exact Hcount.
  - intros Hother. rewrite Hcount, filter_app. simpl.
    unfold same_keyword at 2. rewrite str_eqb_refl.
    assert (Hnone : forall l, (forall k', In k' l -> lower k' <> lower k) ->
                              filter (same_keyword k) l = []).
    { induction l as [|x l IH]; intros H; simpl; [reflexivity|].
      unfold same_keyword at 1.
      destruct (Str.eqb (lower x) (lower k)) eqn:E.
      - apply str_eqb_eq in E. exfalso. apply (H x); simpl; auto.
      - apply IH. intros k' Hin. apply H. now right. }
    rewrite (Hnone before), (Hnone after); [reflexivity| |];
      intros k' Hin; apply Hother; apply in_or_app; auto.
  - apply slice_to_prefix.
  - apply slice_to_length.
Qed.

Lemma C1_witness :
  occurs_ignoring_case "Malware" "This site discusses MALWARE, malware." /\
  keyword_hits "malware"
    (match_page "http://ex.test" "This site discusses MALWARE, malware."
                ["site"; "Malware"; "absent"] ["discusses"] [])
  = [mkMatch "http://ex.test" (Some "malware") None
             "This site discusses MALWARE, malware."].
Proof.
  assert (H : occurs_ignoring_case "Malware"
                "This site discusses MALWARE, malware.")
    by (apply contains_iff; reflexivity).
  split; [exact H|].
  destruct (C1_keyword_hit_emits_one_record "http://ex.test"
              "This site discusses MALWARE, malware."
              ["site"] "Malware" ["absent"] ["discusses"] H)
    as [_ [_ [Hone _]]].
  apply Hone. simpl. intros k' [E|[E|[]]]; subst k'; discriminate.
Defined.

(** C1 as stated fails on a list that names a keyword twice: with the
    entries [a] and [A] on a page that holds [a], two records name the
    keyword [a], not one. *)
Lemma C1_counterexample :
  In "a" ["a"; "A"]
  /\ occurs_ignoring_case "a" "a page"
  /\ keyword_hits "a" (match_page "http://ex.test" "a page" ["a"; "A"] [] [])
     = [mkMatch "http://ex.test" (Some "a") None "a page";
        mkMatch "http://ex.test" (Some "a") None "a page"]
  /\ List.length
       (keyword_hits "a"
          (match_page "http://ex.test" "a page" ["a"; "A"] [] []))
     <> 1%nat.
Proof.
  split; [simpl; auto|]. split; [apply contains_iff; reflexivity|].
  split; [reflexivity | discriminate].
Qed.

(** C2. IOC matching is case-sensitive substring containment.  A record
    with the ioc field [i] is among a page's records only if [i] is in the
    IOC list and occurs verbatim in the page text, and then it is the record
    with that ioc, a null keyword, the page's URL and the first 500
    characters of the text; conversely every listed IOC that occurs verbatim
    has this record.  The IOC [ABC123] does not match a text that holds only
    [abc123]. *)
Theorem C2_ioc_match_is_verbatim
    (current_url text : string) (keywords iocs : list string) (i : string) :
  let r := mkMatch current_url None (Some i) (slice_to 500 text) in
  let out := match_page current_url text keywords iocs [] in
  (forall r', In r' out -> ioc r' = Some i ->
              In i iocs /\ occurs_in i text /\ r' = r)
  /\ (In i iocs -> occurs_in i text -> In r out /\ keyword r = None)
  /\ match_page current_url "abc123" keywords ["ABC123"] []
     = match_page current_url "abc123" keywords [] [].
Proof.
  intros r out. unfold out.
  split; [|split]; [rewrite match_page_spec; simpl ..|].
  - intros r' Hin Hioc. apply in_page_matches in Hin as [[k [_ [_ E]]]|[j [Hj [Hhit E]]]].
    + subst r'. discriminate.
    + subst r'. simpl in Hioc. injection Hioc as ->.
      repeat split; auto. now apply contains_iff.
  - intros Hin Hocc. split; [|reflexivity].
    apply in_page_matches. right. exists i. repeat split; auto.
    now apply contains_iff.
  - unfold match_page. reflexivity.
Qed.

Lemma C2_witness :
  In (mkMatch "http://ex.test" None (Some "ABC123") "hash ABC123 seen")
     (match_page "http://ex.test" "hash ABC123 seen" ["hash"] ["ABC123"] [])
  /\ match_page "http://ex.test" "abc123" [] ["ABC123"] [] = [].
Proof.
  destruct (C2_ioc_match_is_verbatim "http://ex.test" "hash ABC123 seen"
              ["hash"] ["ABC123"] "ABC123") as [_ [Hhit _]].
  destruct (C2_ioc_match_is_verbatim "http://ex.test" "hash ABC123 seen"
              [] ["ABC123"] "ABC123") as [_ [_ Hmiss]].
  split.
  - apply Hhit; [simpl; auto|]. apply contains_iff. reflexivity.
  - exact Hmiss.
Defined.

(** C9, as the code has it.  The keyword field of an emitted keyword record
    is the lowercased form ([str.lower]) of a listed keyword that hits, and
    every listed keyword that hits has the record with its lowercased form.
    So the field differs from the keyword as supplied exactly when
    lowercasing changes the keyword.  It does for a keyword that holds one
    of the capitals A-Z or U+00C0-U+00DE, and then no record of the page
    carries the keyword in its original case; it does not for a keyword that
    lowercasing leaves as it is, whose record carries the keyword as
    supplied. *)
Theorem C9_keyword_field_is_lowercased
    (current_url text : string) (keywords iocs : list string) :
  let out := match_page current_url text keywords iocs [] in
  (forall r kw, In r out -> keyword r = Some kw ->
     exists k, In k keywords /\ occurs_ignoring_case k text /\ kw = lower k)
  /\ (forall k, In k keywords -> occurs_ignoring_case k text ->
        In (mkMatch current_url (Some (lower k)) None (slice_to 500 text)) out
        /\ (has_latin_capital k = true ->
            lower k <> k /\ forall r, In r out -> keyword r <> Some k)
        /\ (lower k = k ->
            In (mkMatch current_url (Some k) None (slice_to 500 text)) out)).
Proof.
  intros out. unfold out. rewrite match_page_spec. simpl.
  assert (Hfield : forall r kw,
    In r (page_matches current_url text keywords iocs) ->
    keyword r = Some kw ->
    exists k, In k keywords /\ occurs_ignoring_case k text /\ kw = lower k).
  { intros r kw Hin Hkw.
    apply in_page_matches in Hin as [[k [Hk [Hhit E]]]|[j [_ [_ E]]]];
      subst r; simpl in Hkw; [|discriminate].
    injection Hkw as <-. exists k. repeat split; auto.
    now apply contains_iff. }
  split; [exact Hfield|].
  intros k Hin Hocc.
  assert (Hrec : In (mkMatch current_url (Some (lower k)) None
                             (slice_to 500 text))
                    (page_matches current_url text keywords iocs)).
  { apply in_page_matches. left. exists k. repeat split; auto.
    now apply contains_iff. }
  split; [exact Hrec|]. split.
  - intros Hcap. split; [now apply lower_changes|].
    intros r Hr Hkw. destruct (Hfield r k Hr Hkw) as [k' [_ [_ E]]].
    pose proof (lower_has_no_latin_capital k') as Hno.
    rewrite <- E in Hno. congruence.
  - intros E. now rewrite E in Hrec.
Qed.

Lemma C9_witness :
  In (mkMatch "http://ex.test" (Some "malware") None "about malware")
     (match_page "http://ex.test" "about malware" ["MalWare"] [] [])
  /\ lower "MalWare" <> "MalWare".
Proof.
  destruct (C9_keyword_field_is_lowercased "http://ex.test" "about malware"
              ["MalWare"] []) as [_ H].
  destruct (H "MalWare") as [Hin [Hcap _]].
  - simpl; auto.
  - apply contains_iff. reflexivity.
  - split; [exact Hin | now apply Hcap].
Defined.

(** C9 as stated fails: the keyword made of the letter U+03D2 holds an
    uppercase letter, [lower] leaves it as it is, and the record emitted
    for it carries the keyword exactly as supplied. *)
Lemma C9_counterexample :
  has_upper (String UpsilonHook "-ray") = true
  /\ match_page "http://ex.test" ("the " +++ String UpsilonHook "-ray")
                [String UpsilonHook "-ray"] [] []
     = [mkMatch "http://ex.test" (Some (String UpsilonHook "-ray")) None
                ("the " +++ String UpsilonHook "-ray")].
Proof. split; reflexivity. Qed.

(* ================================================================= *)
(** * The page loop *)

Lemma fetches_app (e1 e2 : list event) :
  fetches (e1 ++ e2) = fetches e1 ++ fetches e2.
Proof.
  induction e1 as [|[l|u r] e1 IH]; simpl; [reflexivity|exact IH|].
  now rewrite IH.
Qed.

Lemma range_pages_upto (n : Z) : range 1 (n + 1) = pages_upto (Z.to_nat n).
Proof.
  unfold range, pages_upto.
  replace (n + 1 - 1)%Z with n by lia.
  rewrite <- seq_shift, map_map.
  apply map_ext. intros i. lia.
Qed.

Lemma pages_upto_length (n : nat) : List.length (pages_upto n) = n.
Proof. unfold pages_upto. now rewrite length_map, length_seq. Qed.

Lemma firstn_seq_le (n : nat) :
  forall a m, (n <= m)%nat -> firstn n (seq a m) = seq a n.
Proof.
  induction n as [|n IH]; intros a m H; [reflexivity|].
  destruct m as [|m]; [lia|]. simpl. f_equal. apply IH. lia.
Qed.

Lemma pages_upto_firstn (n m : nat) :
  (n <= m)%nat -> firstn n (pages_upto m) = pages_upto n.
Proof.
  intros H. unfold pages_upto. now rewrite firstn_map, firstn_seq_le.
Qed.

Lemma pages_upto_nth (n j : nat) :
  (j < n)%nat -> nth_error (pages_upto n) j = Some (Z.of_nat j + 1)%Z.
Proof.
  intros H. unfold pages_upto.
  rewrite nth_error_map, nth_error_nth' with (d := O)
    by (now rewrite length_seq).
  rewrite seq_nth by assumption. simpl. f_equal. lia.
Qed.

Section Shape.

Variable get_text : string -> option string.
Variable url : string.

Lemma shape_prefix pages fl fs :
  run_shape get_text url pages fl fs ->
  (List.length fs <= List.length pages)%nat
  /\ map fst fs = map (page_url url) (firstn (List.length fs) pages).
Proof.
  induction 1 as [|p pages fl r fs Hr Hrun [IHl IHm]|p pages r Hr]; simpl.
  - split; auto.
  - split; [lia | now rewrite IHm].
  - split; [lia | reflexivity].
Qed.

(** The loop stops early only on an attempt that aborts. *)
Lemma shape_complete pages fl fs :
  run_shape get_text url pages fl fs ->
  (forall u r, In (u, r) fs -> aborts get_text r = false) ->
  List.length fs = List.length pages /\ fl = Continue.
Proof.
  induction 1 as [|p pages fl r fs Hr Hrun IH|p pages r Hr]; intros Hall.
  - split; reflexivity.
  - destruct IH as [IHl IHf].
    + intros u r' Hin. apply (Hall u r'). now right.
    + simpl. split; congruence.
  - rewrite (Hall (page_url url p) r) in Hr by (now left). discriminate.
Qed.

Lemma shape_continue fl : fl = Continue ->
  forall pages fs, run_shape get_text url pages fl fs ->
  List.length fs = List.length pages.
Proof.
  intros Hfl pages fs H.
  induction H as [|p pages fl r fs Hr Hrun IH|p pages r Hr]; simpl.
  - reflexivity.
  - now rewrite IH.
  - discriminate.
Qed.

(** After an attempt that does not abort, the next page is attempted. *)
Lemma shape_next_page pages fl fs :
  run_shape get_text url pages fl fs ->
  forall j u r, nth_error fs j = Some (u, r) ->
    aborts get_text r = false ->
    forall p, nth_error pages (S j) = Some p ->
    exists r', nth_error fs (S j) = Some (page_url url p, r').
Proof.
  induction 1 as [|p0 pages fl r0 fs Hr Hrun IH|p0 pages r0 Hr];
    intros j u r Hj Hna p Hp.
  - destruct j; discriminate.
  - destruct j as [|j]; simpl in Hj.
    + simpl in Hp. destruct pages as [|p1 pages]; [discriminate|].
      simpl in Hp. injection Hp as ->.
      inversion Hrun; subst; simpl; eauto.
    + simpl in Hp. simpl. eapply IH; eauto.
  - destruct j as [|j]; simpl in Hj.
    + injection Hj as <- <-. congruence.
    + destruct j; discriminate.
Qed.

(** The first page of a target is always attempted. *)
Lemma shape_first p pages fl fs :
  run_shape get_text url (p :: pages) fl fs ->
  exists r, nth_error fs 0 = Some (page_url url p, r).
Proof. inversion 1; subst; simpl; eauto. Qed.

End Shape.

Lemma fetch_failed_not_aborts (get_text : string -> option string) (r : reply) :
  fetch_failed r = true -> aborts get_text r = false.
Proof.
  destruct r as [status_code content| |]; simpl; try congruence.
  now intros ->.
Qed.

Lemma fetch_failed_no_text (get_text : string -> option string) (r : reply) :
  fetch_succeeded r = false -> page_text get_text r = None.
Proof.
  destruct r as [status_code content| |]; simpl; try reflexivity.
  now destruct (raises_for_status status_code).
Qed.

Lemma page_text_succeeded (get_text : string -> option string) (r : reply)
    (text : string) :
  page_text get_text r = Some text ->
  exists status_code content,
    r = Response status_code content
    /\ raises_for_status status_code = false
    /\ get_text content = Some text.
Proof.
  destruct r as [status_code content| |]; simpl; try discriminate.
  destruct (raises_for_status status_code) eqn:E; [discriminate|].
  intros H. now exists status_code, content.
Qed.

Section Loop.

Variable World : Type.
Variable requests_get : string -> World -> reply * World.
Variable get_text : string -> option string.
Variables (url : string) (keywords iocs : list string).

Local Abbreviation contribution := (page_records get_text keywords iocs).

Lemma scrape_page_inv (page_num : Z) (results : list MatchRecord)
    (st : state World) :
  let current_url := page_url url page_num in
  let r := fst (requests_get current_url (world st)) in
  exists events,
    scrape_page requests_get get_text url keywords iocs page_num results st
    = (if aborts get_text r then Raised else Continue,
       results ++ contribution (current_url, r),
       mkState (snd (requests_get current_url (world st)))
               (trace st ++ events))
    /\ fetches events = [(current_url, r)].
Proof.
  intros current_url r. subst r.
  unfold scrape_page, get, log, page_records, page_text; simpl.
  fold current_url.
  destruct (requests_get current_url (world st)) as [r w1]; simpl.
  destruct r as [status_code content| |]; simpl.
  - destruct (raises_for_status status_code); simpl.
    + eexists. rewrite app_nil_r, <- !app_assoc. split; reflexivity.
    + destruct (get_text content) as [text_content|]; simpl.
      * eexists. rewrite match_page_spec, <- !app_assoc.
        split; reflexivity.
      * eexists. rewrite app_nil_r, <- !app_assoc. split; reflexivity.
  - eexists. rewrite app_nil_r, <- !app_assoc. split; reflexivity.
  - eexists. rewrite app_nil_r, <- !app_assoc. split; reflexivity.
Qed.

Lemma scrape_pages_inv (pages : list Z) :
  forall results st fl results' st',
    scrape_pages requests_get get_text url keywords iocs pages results st
    = (fl, results', st') ->
    exists events,
      trace st' = trace st ++ events
      /\ run_shape get_text url pages fl (fetches events)
      /\ results' = results ++ flat_map contribution (fetches events).
Proof.
  induction pages as [|page_num rest IH]; intros results st fl results' st' H.
  - simpl in H. injection H as <- <- <-. exists [].
    rewrite !app_nil_r. repeat split. constructor.
  - simpl in H.
    destruct (scrape_page_inv page_num results st) as [ev1 [E1 F1]].
    rewrite E1 in H. clear E1.
    destruct (aborts get_text _) eqn:Hab.
    + injection H as <- <- <-. exists ev1. simpl. rewrite F1. simpl.
      rewrite app_nil_r. repeat split. now constructor.
    + apply IH in H as [ev2 [T2 [S2 R2]]]. simpl in T2.
      exists (ev1 ++ ev2). rewrite fetches_app, F1. simpl.
      rewrite T2, R2, <- !app_assoc. repeat split.
      now constructor.
Qed.

(** What a call of [scrape_url] leaves behind: its attempts have the shape
    of the page loop, and its result is what the attempts contribute, in
    order. *)
Lemma scrape_url_inv (max_pages : Z) (w : World) results w' events :
  scrape_url requests_get get_text url keywords iocs max_pages w
  = (results, w', events) ->
  (exists fl, run_shape get_text url (pages_upto (Z.to_nat max_pages)) fl
                        (fetches events))
  /\ results = flat_map contribution (fetches events).
Proof.
  unfold scrape_url. rewrite range_pages_upto.
  destruct (scrape_pages _ _ _ _ _ _ _ _) as [[fl rs] st] eqn:E.
  apply scrape_pages_inv in E as [ev [T [Sh R]]]. simpl in T, R.
  destruct fl; intros H; injection H as <- <- <-; rewrite T.
  - split; [now exists Continue | exact R].
  - rewrite fetches_app. simpl. rewrite app_nil_r.
    split; [now exists Raised | exact R].
Qed.

End Loop.

(* ================================================================= *)
(** * The loop over the targets *)

Section Targets.

Variable World : Type.
Variable requests_get : string -> World -> reply * World.
Variable get_text : string -> option string.
Variables (keywords iocs : list string) (max_pages : Z).

Local Abbreviation runs_of urls w :=
  (target_runs requests_get get_text urls keywords iocs max_pages w).

(** [main]'s loop does what the target-by-target reading says. *)
Lemma scrape_all_runs (urls : list string) :
  forall all_results st,
    scrape_all requests_get get_text urls keywords iocs max_pages
               all_results st
    = (all_results ++ flat_map run_results (fst (runs_of urls (world st))),
       mkState (snd (runs_of urls (world st)))
               (trace st ++ flat_map run_events
                                     (fst (runs_of urls (world st))))).
Proof.
  induction urls as [|url rest IH]; intros all_results st; simpl.
  - rewrite !app_nil_r. now destruct st.
  - destruct (scrape_url _ _ url _ _ _ _) as [[results w1] events].
    rewrite IH. simpl.
    destruct (runs_of rest w1) as [runs w2]. simpl.
    now rewrite <- !app_assoc.
Qed.

(** Every target has its run, in the order of the list, and every run is a
    call of [scrape_url] on its target. *)
Lemma target_runs_inv (urls : list string) :
  forall w,
    map run_url (fst (runs_of urls w)) = urls
    /\ forall run, In run (fst (runs_of urls w)) ->
         exists w0 w1,
           scrape_url requests_get get_text (run_url run) keywords iocs
                      max_pages w0
           = (run_results run, w1, run_events run).
Proof.
  induction urls as [|url rest IH]; intros w; simpl.
  - split; [reflexivity | intros run []].
  - destruct (scrape_url _ _ url _ _ _ _) as [[results w1] events] eqn:E.
    destruct (IH w1) as [IHu IHr].
    destruct (runs_of rest w1) as [runs w2]. simpl in *.
    split; [now rewrite IHu|].
    intros run [<-|Hin]; [now exists w, w1 | now apply IHr].
Qed.

Lemma target_runs_chain (urls : list string) :
  forall w,
    run_chain requests_get get_text keywords iocs max_pages w urls
              (fst (runs_of urls w)) (snd (runs_of urls w)).
Proof.
  induction urls as [|url rest IH]; intros w; simpl.
  - constructor.
  - destruct (scrape_url _ _ url _ _ _ _) as [[results w1] events] eqn:E.
    specialize (IH w1).
    destruct (runs_of rest w1) as [runs w2]. simpl in *.
    econstructor; eassumption.
Qed.

Lemma fetches_flat_map (runs : list target_run) :
  fetches (flat_map run_events runs)
  = flat_map (fun run => fetches (run_events run)) runs.
Proof.
  induction runs as [|run runs IH]; simpl; [reflexivity|].
  now rewrite fetches_app, IH.
Qed.

End Targets.

Lemma fetches_read_iocs (fs : filesystem) (path : string) :
  fetches (snd (read_iocs_from_file fs path)) = [].
Proof. unfold read_iocs_from_file. now destruct (entry fs path). Qed.

Lemma fetches_main_iocs (args : Args) (fs : filesystem) :
  fetches (snd (main_iocs args fs)) = [].
Proof.
  unfold main_iocs. destruct (args_ioc_file args) as [[|c path]|];
    try reflexivity.
  apply fetches_read_iocs.
Qed.

(** The ResultSet and the fetch attempts of a whole run, read target by
    target. *)
Lemma collect_runs (World : Type)
    (requests_get : string -> World -> reply * World)
    (get_text : string -> option string)
    (args : Args) (fs : filesystem) (w : World) all_results st :
  collect requests_get get_text args fs w = (all_results, st) ->
  let runs := fst (target_runs requests_get get_text (args_urls args)
                     (main_keywords args) (fst (main_iocs args fs))
                     (args_max_pages args) w) in
  all_results = flat_map run_results runs
  /\ fetches (trace st) = flat_map (fun run => fetches (run_events run)) runs.
Proof.
  unfold collect. destruct (main_iocs args fs) as [iocs events] eqn:E.
  rewrite scrape_all_runs. simpl. intros H. injection H as <- <-.
  split; [reflexivity|]. simpl.
  rewrite fetches_app, fetches_flat_map.
  replace events with (snd (main_iocs args fs)) by now rewrite E.
  now rewrite fetches_main_iocs.
Qed.

Lemma collect_world (World : Type)
    (requests_get : string -> World -> reply * World)
    (get_text : string -> option string)
    (args : Args) (fs : filesystem) (w : World) all_results st :
  collect requests_get get_text args fs w = (all_results, st) ->
  world st
  = snd (target_runs requests_get get_text (args_urls args)
           (main_keywords args) (fst (main_iocs args fs))
           (args_max_pages args) w).
Proof.
  unfold collect. destruct (main_iocs args fs) as [iocs events].
  rewrite scrape_all_runs. simpl. intros H. now injection H as <- <-.
Qed.

(* ================================================================= *)
(** * Pagination *)

Lemma page_url_first (url : string) : page_url url 1 = url.
Proof. reflexivity. Qed.

Lemma page_url_later (url : string) (k : Z) :
  (1 < k)%Z ->
  (occurs_in "?" url -> page_url url k = url +++ "&page=" +++ str k)
  /\ (~ occurs_in "?" url -> page_url url k = url +++ "?page=" +++ str k).
Proof.
  intros Hk. unfold page_url.
  apply Z.ltb_lt in Hk. rewrite Hk.
  destruct (contains "?" url) eqn:E.
  - split; [reflexivity|]. intros H. apply contains_iff in E. contradiction.
  - split; [|reflexivity]. intros H. apply contains_iff in H. congruence.
Qed.

(** C3, as the code has it.  For a page count N >= 1 the fetch attempts of
    one target are, in this order, the URLs of the pages 1, 2, ..., n for
    some n with 1 <= n <= N: page 1 is the base URL unmodified, page k > 1
    is the base URL followed by [&page=k] when the base URL holds a [?] and
    by [?page=k] otherwise.  There are exactly N attempts when no attempt
    ends in an exception other than a fetch failure; such an exception goes
    to the general handler of [scrape_url], which ends the target's loop. *)
Theorem C3_attempts_are_the_page_urls
    (World : Type) (requests_get : string -> World -> reply * World)
    (get_text : string -> option string)
    (url : string) (keywords iocs : list string) (max_pages : Z) (w : World)
    results w' events :
  (1 <= max_pages)%Z ->
  scrape_url requests_get get_text url keywords iocs max_pages w
  = (results, w', events) ->
  exists n : nat,
    (1 <= n)%nat /\ (Z.of_nat n <= max_pages)%Z
    /\ map fst (fetches events) = map (page_url url) (pages_upto n)
    /\ ((forall u r, In (u, r) (fetches events) -> aborts get_text r = false)
        -> Z.of_nat n = max_pages)
    /\ page_url url 1 = url
    /\ forall k, (1 < k)%Z ->
         (occurs_in "?" url -> page_url url k = url +++ "&page=" +++ str k)
         /\ (~ occurs_in "?" url ->
             page_url url k = url +++ "?page=" +++ str k).
Proof.
  intros HN H. apply scrape_url_inv in H as [[fl Hshape] _].
  destruct (shape_prefix _ _ _ _ _ Hshape) as [Hlen Hmap].
  rewrite pages_upto_length in Hlen.
  rewrite pages_upto_firstn in Hmap by assumption.
  exists (List.length (fetches events)).
  split; [|split; [lia|split; [exact Hmap|split; [|split]]]].
  - destruct (Z.to_nat max_pages) as [|m] eqn:Em; [lia|].
    unfold pages_upto in Hshape. simpl in Hshape.
    apply shape_first in Hshape as [r Hr].
    destruct (fetches events); [discriminate | simpl; lia].
  - intros Hall.
    destruct (shape_complete _ _ _ _ _ Hshape Hall) as [Hfull _].
    rewrite Hfull, pages_upto_length. lia.
  - apply page_url_first.
  - apply page_url_later.
Qed.

Lemma C3_witness :
  map fst (fetches (snd (scrape_url scripted_get plain_text
                           "http://ex.test?id=1" [] [] 3
                           [Response 200 "one"; Response 404 "two"])))
  = ["http://ex.test?id=1"; "http://ex.test?id=1&page=2";
     "http://ex.test?id=1&page=3"].
Proof.
  destruct (scrape_url scripted_get plain_text "http://ex.test?id=1" [] [] 3
              [Response 200 "one"; Response 404 "two"])
    as [[results w'] events] eqn:E.
  assert (H3 : (1 <= 3)%Z) by lia.
  destruct (C3_attempts_are_the_page_urls _ _ _ _ _ _ _ _ _ _ _ H3 E)
    as [n [_ [_ [Hmap [Hn _]]]]].
  assert (Hfull : Z.of_nat n = 3%Z).
  { apply Hn. vm_compute in E. injection E as <- <- <-.
    simpl. intros u r [H|[H|[H|[]]]]; injection H as <- <-; reflexivity. }
  replace n with 3%nat in Hmap by lia.
  exact Hmap.
Defined.

(** C3 as stated fails: with two pages requested, the parser raises on the
    first page, the general handler ends the loop, and page 2 is never
    attempted. *)
Lemma C3_counterexample :
  (1 <= 2)%Z
  /\ map fst (fetches (snd (scrape_url scripted_get strict_text
                              "http://ex.test" ["malware"] [] 2
                              [Response 200 "<![x[ ]]>"; Response 200 "malware"])))
     = ["http://ex.test"]
  /\ map fst (fetches (snd (scrape_url scripted_get strict_text
                              "http://ex.test" ["malware"] [] 2
                              [Response 200 "<![x[ ]]>"; Response 200 "malware"])))
     <> map (page_url "http://ex.test") (range 1 (2 + 1)).
Proof.
  split; [lia|]. split; [reflexivity|]. vm_compute. discriminate.
Qed.

(* ================================================================= *)
(** * Failed fetches *)

(** C4.  Read the loop of [main] target by target.  Every target has its
    run, in the order of the list, whatever happened to the targets before
    it, and with a page count N >= 1 its first page is attempted.  In a run,
    an attempt that fails as a fetch (a network error, or a 4xx/5xx status)
    contributes no record to the run's result, and when it was not the last
    of the N pages the next page is attempted. *)
Theorem C4_failed_fetch_skips_only_that_page
    (World : Type) (requests_get : string -> World -> reply * World)
    (get_text : string -> option string)
    (urls keywords iocs : list string) (max_pages : Z) (st : state World) :
  let runs := fst (target_runs requests_get get_text urls keywords iocs
                               max_pages (world st)) in
  fst (scrape_all requests_get get_text urls keywords iocs max_pages [] st)
  = flat_map run_results runs
  /\ trace (snd (scrape_all requests_get get_text urls keywords iocs
                            max_pages [] st))
     = trace st ++ flat_map run_events runs
  /\ map run_url runs = urls
  /\ forall run, In run runs ->
       run_results run
       = flat_map (page_records get_text keywords iocs)
                  (fetches (run_events run))
       /\ ((1 <= max_pages)%Z ->
           exists r, nth_error (fetches (run_events run)) 0
                     = Some (run_url run, r))
       /\ forall j u r,
            nth_error (fetches (run_events run)) j = Some (u, r) ->
            fetch_failed r = true ->
            page_records get_text keywords iocs (u, r) = []
            /\ ((Z.of_nat j + 1 < max_pages)%Z ->
                exists r', nth_error (fetches (run_events run)) (S j)
                           = Some (page_url (run_url run) (Z.of_nat j + 2),
                                   r')).
Proof.
  intros runs. rewrite scrape_all_runs. simpl. fold runs.
  destruct (target_runs_inv _ requests_get get_text keywords iocs max_pages
              urls (world st)) as [Hurls Hruns]. fold runs in Hurls, Hruns.
  repeat split; auto.
  - destruct (Hruns run H) as [w0 [w1 E]].
    now apply scrape_url_inv in E as [_ R].
  - intros HN. destruct (Hruns run H) as [w0 [w1 E]].
    apply scrape_url_inv in E as [[fl Hshape] _].
    destruct (Z.to_nat max_pages) as [|m] eqn:Em; [lia|].
    unfold pages_upto in Hshape. simpl in Hshape.
    now apply shape_first in Hshape.
  - unfold page_records. simpl.
    rewrite fetch_failed_no_text; [reflexivity|].
    destruct r as [s c| |]; simpl in *; try congruence. now rewrite H1.
  - intros Hj. destruct (Hruns run H) as [w0 [w1 E]].
    apply scrape_url_inv in E as [[fl Hshape] _].
    eapply (shape_next_page _ _ _ _ _ Hshape j u r H0).
    + now apply fetch_failed_not_aborts.
    + rewrite pages_upto_nth by lia. f_equal. lia.
Qed.

Lemma C4_witness :
  fetches (trace (snd (scrape_all scripted_get plain_text
                         ["http://a.test"; "http://b.test"] ["x"] [] 2 []
                         (mkState [RequestException; Response 200 "x";
                                   Response 500 "x"; Response 200 "y"] []))))
  = [("http://a.test", RequestException);
     ("http://a.test?page=2", Response 200 "x");
     ("http://b.test", Response 500 "x");
     ("http://b.test?page=2", Response 200 "y")]
  /\ exists r', nth_error [("http://a.test", RequestException);
                           ("http://a.test?page=2", Response 200 "x")] 1
                = Some (page_url "http://a.test" 2, r').
Proof.
  pose proof (C4_failed_fetch_skips_only_that_page (list reply) scripted_get
                plain_text ["http://a.test"; "http://b.test"] ["x"] [] 2
                (mkState [RequestException; Response 200 "x";
                          Response 500 "x"; Response 200 "y"] []))
    as [_ [Htrace [_ Hruns]]].
  split.
  - rewrite Htrace. reflexivity.
  - destruct (Hruns (mkRun "http://a.test"
                       [mkMatch "http://a.test?page=2" (Some "x") None "x"]
                       [Log (Info_scraping "http://a.test");
                        Get "http://a.test" RequestException;
                        Log (Error_fetching "http://a.test");
                        Log (Info_scraping "http://a.test?page=2");
                        Get "http://a.test?page=2" (Response 200 "x")]))
      as [_ [_ Hnext]].
    + left. reflexivity.
    + destruct (Hnext 0%nat "http://a.test" RequestException
                  eq_refl eq_refl) as [_ Hgo].
      apply Hgo. reflexivity.
Defined.

(* ================================================================= *)
(** * Records and the fetches they come from *)

(** C5.  The ResultSet of a run is what the run's fetch attempts contribute,
    attempt by attempt; an attempt that did not complete with a non-error
    status contributes nothing; so every record's url is the URL of an
    attempt of that run that returned a response with a status outside
    400..599 (and whose text the record's context starts). *)
Theorem C5_records_come_from_successful_fetches
    (World : Type) (requests_get : string -> World -> reply * World)
    (get_text : string -> option string)
    (args : Args) (fs : filesystem) (w : World) all_results st :
  collect requests_get get_text args fs w = (all_results, st) ->
  let keywords := main_keywords args in
  let iocs := fst (main_iocs args fs) in
  all_results
  = flat_map (page_records get_text keywords iocs) (fetches (trace st))
  /\ (forall f, fetch_succeeded (snd f) = false ->
                page_records get_text keywords iocs f = [])
  /\ forall r, In r all_results ->
       exists status_code content text,
         In (url r, Response status_code content) (fetches (trace st))
         /\ fetch_succeeded (Response status_code content) = true
         /\ ~ (400 <= status_code < 600)%Z
         /\ get_text content = Some text
         /\ context r = slice_to 500 text.
Proof.
  intros H keywords iocs.
  destruct (collect_runs _ _ _ _ _ _ _ _ H) as [Hall Hfetch].
  fold keywords iocs in Hall, Hfetch.
  set (runs := fst (target_runs requests_get get_text (args_urls args)
                      keywords iocs (args_max_pages args) w)) in *.
  destruct (target_runs_inv _ requests_get get_text keywords iocs
              (args_max_pages args) (args_urls args) w) as [_ Hruns].
  fold runs in Hruns.
  assert (Hflat : all_results
    = flat_map (page_records get_text keywords iocs) (fetches (trace st))).
  { rewrite Hall, Hfetch. clear Hall Hfetch.
    induction runs as [|run runs IH]; simpl; [reflexivity|].
    rewrite flat_map_app. f_equal.
    - destruct (Hruns run (or_introl eq_refl)) as [w0 [w1 E]].
      now apply scrape_url_inv in E as [_ R].
    - apply IH. intros run' Hin. apply Hruns. now right. }
  split; [exact Hflat|]. split.
  - intros f Hf. unfold page_records.
    now rewrite fetch_failed_no_text.
  - intros r Hr. rewrite Hflat in Hr.
    apply in_flat_map in Hr as [[u rep] [Hin Hrec]].
    unfold page_records in Hrec. simpl in Hrec.
    destruct (page_text get_text rep) as [text|] eqn:Et; [|destruct Hrec].
    apply page_text_succeeded in Et as [status_code [content [-> [Hs Ht]]]].
    exists status_code, content, text.
    assert (Hu : url r = u /\ context r = slice_to 500 text).
    { apply in_page_matches in Hrec as [[k [_ [_ ->]]]|[i [_ [_ ->]]]];
        split; reflexivity. }
    destruct Hu as [-> Hc].
    repeat split; auto.
    + simpl. now rewrite Hs.
    + unfold raises_for_status in Hs. lia.
Qed.

Lemma C5_witness :
  exists status_code content,
    In ("http://ex.test?page=2", Response status_code content)
       [("http://ex.test", Response 404 "malware");
        ("http://ex.test?page=2", Response 200 "malware")]
    /\ ~ (400 <= status_code < 600)%Z.
Proof.
  pose (args := mkArgs (Some ["malware"]) None ["http://ex.test"]
                       "output.csv" 2).
  pose (fs := mkFs (fun _ => Absent) (fun _ => true)).
  destruct (collect scripted_get plain_text args fs
              [Response 404 "malware"; Response 200 "malware"])
    as [all_results st] eqn:E.
  destruct (C5_records_come_from_successful_fetches _ _ _ _ _ _ _ _ E)
    as [_ [_ Hrec]].
  vm_compute in E. injection E as <- <-.
  destruct (Hrec (mkMatch "http://ex.test?page=2" (Some "malware") None
                          "malware") (or_introl eq_refl))
    as [status_code [content [text [Hin [_ [Hst _]]]]]].
  exists status_code, content. split; [exact Hin | exact Hst].
Defined.

(* ================================================================= *)
(** * The order of the ResultSet *)

(** C8.  Read the run target by target: for each target of the list, in
    the order in which the caller listed them, the call of [scrape_url] on
    it from the world the earlier targets left.  The ResultSet of the run is
    the concatenation of the results of these calls, in that order.  The
    attempts of a call are those of the pages 1, 2, ..., n in increasing
    order (n >= 1 when N >= 1, and n = N when no attempt aborts), and its
    result is the concatenation, in the order of the attempts, of what each
    contributes: for a page that was fetched and extracted, the records of
    the keywords that hit, in the order of the keyword list, followed by the
    records of the IOCs that hit, in the order of the IOC list. *)
Theorem C8_results_in_target_page_keyword_ioc_order
    (World : Type) (requests_get : string -> World -> reply * World)
    (get_text : string -> option string)
    (args : Args) (fs : filesystem) (w : World) all_results st :
  collect requests_get get_text args fs w = (all_results, st) ->
  let keywords := main_keywords args in
  let iocs := fst (main_iocs args fs) in
  let max_pages := args_max_pages args in
  let runs := fst (target_runs requests_get get_text (args_urls args)
                               keywords iocs max_pages w) in
  run_chain requests_get get_text keywords iocs max_pages w
            (args_urls args) runs (world st)
  /\ map run_url runs = args_urls args
  /\ all_results = flat_map run_results runs
  /\ fetches (trace st) = flat_map (fun run => fetches (run_events run)) runs
  /\ forall run, In run runs ->
       (exists w0 w1,
          scrape_url requests_get get_text (run_url run) keywords iocs
                     max_pages w0
          = (run_results run, w1, run_events run))
       /\ (exists n : nat,
             ((1 <= max_pages)%Z -> (1 <= n)%nat)
             /\ (Z.of_nat n <= Z.max 0 max_pages)%Z
             /\ ((forall u r, In (u, r) (fetches (run_events run)) ->
                              aborts get_text r = false) ->
                 Z.of_nat n = Z.max 0 max_pages)
             /\ map fst (fetches (run_events run))
                = map (page_url (run_url run)) (pages_upto n))
       /\ run_results run
          = flat_map
              (fun f =>
                 match page_text get_text (snd f) with
                 | Some text =>
                     map (keyword_record (fst f) text)
                         (filter (keyword_hit text) keywords)
                     ++ map (ioc_record (fst f) text)
                            (filter (ioc_hit text) iocs)
                 | None => []
                 end)
              (fetches (run_events run)).
Proof.
  intros H keywords iocs max_pages runs.
  destruct (collect_runs _ _ _ _ _ _ _ _ H) as [Hall Hfetch].
  destruct (target_runs_inv _ requests_get get_text keywords iocs
              max_pages (args_urls args) w) as [Hurls Hruns].
  split.
  { rewrite (collect_world _ _ _ _ _ _ _ _ H). apply target_runs_chain. }
  split; [exact Hurls|]. split; [exact Hall|]. split; [exact Hfetch|].
  intros run Hin. destruct (Hruns run Hin) as [w0 [w1 E]].
  split; [now exists w0, w1|].
  apply scrape_url_inv in E as [[fl Hshape] R]. split; [|exact R].
  destruct (shape_prefix _ _ _ _ _ Hshape) as [Hlen Hmap].
  rewrite pages_upto_length in Hlen.
  rewrite pages_upto_firstn in Hmap by assumption.
  exists (List.length (fetches (run_events run))).
  split; [|split; [lia|split; [|exact Hmap]]].
  - intros HN. destruct (Z.to_nat max_pages) as [|m] eqn:Em; [lia|].
    unfold pages_upto in Hshape. simpl in Hshape.
    apply shape_first in Hshape as [r Hr].
    destruct (fetches (run_events run)); [discriminate | simpl; lia].
  - intros Hnone.
    destruct (shape_complete _ _ _ _ _ Hshape Hnone) as [Hfull _].
    rewrite Hfull, pages_upto_length. lia.
Qed.

Lemma C8_witness :
  [mkMatch "http://one.test" (Some "b") None "a B";
   mkMatch "http://one.test" (Some "a") None "a B";
   mkMatch "http://one.test" None (Some "B") "a B";
   mkMatch "http://one.test?page=2" (Some "b") None "b";
   mkMatch "http://two.test" (Some "b") None "ab";
   mkMatch "http://two.test" (Some "a") None "ab"]
  = flat_map run_results
      (fst (target_runs scripted_get plain_text
              ["http://one.test"; "http://two.test"] ["b"; "a"] ["B"] 2
              [Response 200 "a B"; Response 200 "b"; Response 200 "ab"])).
Proof.
  pose (args := mkArgs (Some ["b"; "a"]) (Some "iocs.txt")
                       ["http://one.test"; "http://two.test"] "output.csv" 2).
  pose (fs := mkFs (fun _ => Readable "B") (fun _ => true)).
  pose (w := [Response 200 "a B"; Response 200 "b"; Response 200 "ab"]).
  destruct (collect scripted_get plain_text args fs w)
    as [all_results st] eqn:E.
  destruct (C8_results_in_target_page_keyword_ioc_order _ _ _ _ _ _ _ _ E)
    as [_ [_ [Hall _]]].
  vm_compute in E. injection E as <- <-. exact Hall.
Defined.

(* ================================================================= *)
(** * The empty string *)

(** C10, as the code has it.  When the keyword list of a call of
    [scrape_url] holds the empty string, every attempt of the call whose
    fetch succeeded and whose text the parser extracted has, in the result,
    a record with that page's URL, the empty keyword, a null ioc and the
    first 500 characters of the text; and likewise, for an empty-string IOC,
    a record with the empty ioc and a null keyword. *)
Theorem C10_empty_string_matches_every_page
    (World : Type) (requests_get : string -> World -> reply * World)
    (get_text : string -> option string)
    (url : string) (keywords iocs : list string) (max_pages : Z) (w : World)
    results w' events :
  scrape_url requests_get get_text url keywords iocs max_pages w
  = (results, w', events) ->
  forall u r text,
    In (u, r) (fetches events) ->
    page_text get_text r = Some text ->
    (In "" keywords ->
     In (mkMatch u (Some "") None (slice_to 500 text)) results)
    /\ (In "" iocs ->
        In (mkMatch u None (Some "") (slice_to 500 text)) results).
Proof.
  intros H u r text Hin Ht.
  apply scrape_url_inv in H as [_ ->].
  split; intros Hempty; apply in_flat_map; exists (u, r);
    (split; [exact Hin|]); unfold page_records; simpl; rewrite Ht;
    apply in_page_matches.
  - left. exists "". repeat split; auto.
    unfold keyword_hit. simpl. apply contains_empty_needle.
  - right. exists "". repeat split; auto.
    unfold ioc_hit. apply contains_empty_needle.
Qed.

Lemma C10_witness :
  In (mkMatch "http://ex.test?page=2" (Some "") None "nothing here")
     (fst (fst (scrape_url scripted_get plain_text "http://ex.test"
                  ["absent"; ""] [""] 2
                  [Response 503 "down"; Response 200 "nothing here"])))
  /\ In (mkMatch "http://ex.test?page=2" None (Some "") "nothing here")
        (fst (fst (scrape_url scripted_get plain_text "http://ex.test"
                     ["absent"; ""] [""] 2
                     [Response 503 "down"; Response 200 "nothing here"]))).
Proof.
  destruct (scrape_url scripted_get plain_text "http://ex.test"
              ["absent"; ""] [""] 2
              [Response 503 "down"; Response 200 "nothing here"])
    as [[results w'] events] eqn:E.
  pose proof (C10_empty_string_matches_every_page _ _ _ _ _ _ _ _ _ _ _ E
                "http://ex.test?page=2" (Response 200 "nothing here")
                "nothing here") as H.
  vm_compute in E. injection E as <- <- <-.
  destruct H as [Hk Hi].
  - simpl. auto.
  - reflexivity.
  - split; [apply Hk | apply Hi]; simpl; auto.
Defined.

(** C10 as stated fails on a page that is fetched with status 200 and on
    which the parser raises: the general handler returns what was gathered,
    and the page has no record for the empty keyword or the empty IOC. *)
Lemma C10_counterexample :
  In "" [""]
  /\ fetches (snd (scrape_url scripted_get strict_text "http://ex.test"
                     [""] [""] 1 [Response 200 "<![x[ ]]>"]))
     = [("http://ex.test", Response 200 "<![x[ ]]>")]
  /\ fetch_succeeded (Response 200 "<![x[ ]]>") = true
  /\ fst (fst (scrape_url scripted_get strict_text "http://ex.test"
                 [""] [""] 1 [Response 200 "<![x[ ]]>"]))
     = [].
Proof. repeat split; simpl; auto. Qed.

(* ================================================================= *)
(** * The IOC loader *)

Lemma rstrip_empty (s : string) : is_empty (rstrip s) = is_blank s.
Proof.
  induction s as [|c s IH]; simpl; [reflexivity|].
  rewrite <- IH. now destruct (is_space c), (is_empty (rstrip s)).
Qed.

Lemma lstrip_blank (s : string) : is_blank (lstrip s) = is_blank s.
Proof.
  induction s as [|c s IH]; simpl; [reflexivity|].
  destruct (is_space c) eqn:E; simpl; [exact IH | now rewrite E].
Qed.

(** A line is dropped exactly when it is all white space. *)
Lemma strip_empty (s : string) : is_empty (strip s) = is_blank s.
Proof. unfold strip. now rewrite rstrip_empty, lstrip_blank. Qed.

Lemma lstrip_head (s : string) :
  match lstrip s with
  | EmptyString => True
  | String c _ => is_space c = false
  end.
Proof.
  induction s as [|c s IH]; simpl; [exact I|].
  destruct (is_space c) eqn:E; [exact IH | exact E].
Qed.

Lemma rstrip_last (s : string) :
  match rstrip s with
  | EmptyString => True
  | String c t => is_space (last_char c t) = false
  end.
Proof.
  induction s as [|c s IH]; simpl; [exact I|].
  destruct (rstrip s) as [|d t]; simpl.
  - rewrite andb_true_r. destruct (is_space c) eqn:E; [exact I | exact E].
  - rewrite andb_false_r. exact IH.
Qed.

Lemma rstrip_head (c : char) (s : string) :
  is_space c = false -> rstrip (String c s) = String c (rstrip s).
Proof. intros E. simpl. now rewrite E. Qed.

Lemma strip_trimmed (s : string) :
  is_blank s = false -> is_trimmed (strip s) = true.
Proof.
  intros Hb. rewrite <- lstrip_blank in Hb. unfold strip.
  pose proof (lstrip_head s) as Hh.
  destruct (lstrip s) as [|c t]; [discriminate|].
  pose proof (rstrip_last (String c t)) as Hl.
  rewrite rstrip_head in * by assumption.
  unfold is_trimmed. now rewrite Hh, Hl.
Qed.

Lemma filter_nonblank_lines (lines : list string) :
  filter (fun line => negb (is_empty (strip line))) lines
  = filter (fun line => negb (is_blank line)) lines.
Proof.
  apply filter_ext. intros line. now rewrite strip_empty.
Qed.

(** C6.  For a readable file the loader returns, in file order and with
    duplicates kept, the trimmed form of every line that is not all white
    space, each of them non-empty with no white space at either end, and
    reports nothing.  For a path that does not exist, or a file whose read
    fails, it returns the empty list and logs the condition; [main] then
    scrapes with no IOC, so the run goes on. *)
Theorem C6_ioc_loading_is_best_effort
    (fs : filesystem) (ioc_file_path : string) :
  (forall content, entry fs ioc_file_path = Readable content ->
     read_iocs_from_file fs ioc_file_path
     = (map strip (filter (fun line => negb (is_blank line))
                          (file_lines content)), [])
     /\ Forall (fun i => is_trimmed i = true)
               (fst (read_iocs_from_file fs ioc_file_path)))
  /\ (entry fs ioc_file_path = Absent ->
      read_iocs_from_file fs ioc_file_path
      = ([], [Log (Error_ioc_not_found ioc_file_path)]))
  /\ (entry fs ioc_file_path = Unreadable ->
      read_iocs_from_file fs ioc_file_path = ([], [Log Error_ioc_read]))
  /\ forall (World : Type) (requests_get : string -> World -> reply * World)
            (get_text : string -> option string) (args : Args) (w : World),
       args_ioc_file args = Some ioc_file_path ->
       ioc_file_path <> "" ->
       (forall content, entry fs ioc_file_path <> Readable content) ->
       exists l,
         snd (read_iocs_from_file fs ioc_file_path) = [Log l]
         /\ collect requests_get get_text args fs w
            = scrape_all requests_get get_text (args_urls args)
                         (main_keywords args) [] (args_max_pages args) []
                         (mkState w [Log l]).
Proof.
  unfold read_iocs_from_file. split; [|split; [|split]].
  - intros content ->. rewrite filter_nonblank_lines. split; [reflexivity|].
    simpl. apply Forall_forall. intros i Hi.
    apply in_map_iff in Hi as [line [<- Hline]].
    apply filter_In in Hline as [_ Hnb].
    apply strip_trimmed. now destruct (is_blank line).
  - now intros ->.
  - now intros ->.
  - intros World requests_get get_text args w Hfile Hne Hbad.
    unfold collect, main_iocs, read_iocs_from_file. rewrite Hfile.
    destruct ioc_file_path as [|c path]; [contradiction|].
    destruct (entry fs (String c path)) as [| |content].
    + eexists. split; reflexivity.
    + eexists. split; reflexivity.
    + now destruct (Hbad content).
Qed.

Lemma C6_witness :
  read_iocs_from_file
    (mkFs (fun p => if Str.eqb p "iocs.txt"
                    then Readable (" evil.test " +++ String LF
                                   (String LF ("ABC123" +++ String CR
                                   (String LF (" " +++ String LF "ABC123")))))
                    else Absent)
          (fun _ => true))
    "iocs.txt"
  = (["evil.test"; "ABC123"; "ABC123"], [])
  /\ read_iocs_from_file (mkFs (fun _ => Absent) (fun _ => true)) "iocs.txt"
     = ([], [Log (Error_ioc_not_found "iocs.txt")]).
Proof.
  split.
  - destruct (C6_ioc_loading_is_best_effort
                (mkFs (fun p => if Str.eqb p "iocs.txt"
                    then Readable (" evil.test " +++ String LF
                                   (String LF ("ABC123" +++ String CR
                                   (String LF (" " +++ String LF "ABC123")))))
                    else Absent)
                      (fun _ => true)) "iocs.txt") as [Hread _].
    destruct (Hread _ eq_refl) as [E _]. rewrite E. reflexivity.
  - destruct (C6_ioc_loading_is_best_effort
                (mkFs (fun _ => Absent) (fun _ => true)) "iocs.txt")
      as [_ [Habsent _]].
    apply Habsent. reflexivity.
Defined.

(* ================================================================= *)
(** * The result writer *)

Lemma field_empty : Csv.field "" = "".
Proof. reflexivity. Qed.

Lemma to_csv_records (r : MatchRecord) (results : list MatchRecord) :
  Csv.to_csv (r :: results)
  = "url,keyword,ioc,context" +++ String LF (Csv.rows (r :: results)).
Proof. reflexivity. Qed.









(* ================================================================= *)
(** * The log of a call *)

Lemma fetches_attempt_events (fs : list (string * reply)) :
  fetches (flat_map attempt_events fs) = fs.
Proof.
  induction fs as [|[u r] fs IH]; simpl; [reflexivity|].
  rewrite fetches_app, IH.
  now destruct (fetch_failed r).
Qed.

Lemma shape_flow (get_text : string -> option string) (url : string)
    pages fl fs :
  run_shape get_text url pages fl fs ->
  any_aborts get_text fs = match fl with Raised => true | Continue => false end.
Proof.
  unfold any_aborts.
  induction 1 as [|p pages fl r fs Hr Hrun IH|p pages r Hr]; simpl.
  - reflexivity.
  - now rewrite Hr.
  - now rewrite Hr.
Qed.

Section Log.

Variable World : Type.
Variable requests_get : string -> World -> reply * World.
Variable get_text : string -> option string.
Variables (url : string) (keywords iocs : list string).

Lemma scrape_page_events (page_num : Z) (results : list MatchRecord)
    (st : state World) :
  let current_url := page_url url page_num in
  let r := fst (requests_get current_url (world st)) in
  scrape_page requests_get get_text url keywords iocs page_num results st
  = (if aborts get_text r then Raised else Continue,
     results ++ page_records get_text keywords iocs (current_url, r),
     mkState (snd (requests_get current_url (world st)))
             (trace st ++ attempt_events (current_url, r))).
Proof.
  intros current_url r. subst r.
  unfold scrape_page, get, log, page_records, page_text, attempt_events.
  simpl. fold current_url.
  destruct (requests_get current_url (world st)) as [r w1]; simpl.
  destruct r as [status_code content| |]; simpl.
  - destruct (raises_for_status status_code); simpl.
    + now rewrite app_nil_r, <- !app_assoc.
    + destruct (get_text content) as [text_content|]; simpl.
      * now rewrite match_page_spec, <- !app_assoc.
      * now rewrite app_nil_r, <- !app_assoc.
  - now rewrite app_nil_r, <- !app_assoc.
  - now rewrite app_nil_r, <- !app_assoc.
Qed.

Lemma scrape_pages_events (pages : list Z) :
  forall results st fl results' st',
    scrape_pages requests_get get_text url keywords iocs pages results st
    = (fl, results', st') ->
    exists fs,
      trace st' = trace st ++ flat_map attempt_events fs
      /\ run_shape get_text url pages fl fs.
Proof.
  induction pages as [|page_num rest IH]; intros results st fl results' st' H.
  - simpl in H. injection H as <- <- <-. exists [].
    simpl. rewrite app_nil_r. split; [reflexivity | constructor].
  - simpl in H. rewrite scrape_page_events in H.
    destruct (aborts get_text _) eqn:Hab.
    + injection H as <- <- <-. eexists [_]. simpl.
      rewrite app_nil_r. split; [reflexivity | now constructor].
    + apply IH in H as [fs [T2 S2]]. simpl in T2.
      eexists (_ :: fs). split; [|constructor; eassumption].
      rewrite T2. simpl. now rewrite <- !app_assoc.
Qed.

(** The log of a call of [scrape_url] is determined by its fetch attempts:
    every attempt is announced by an info line just before the request, every
    attempt that fails as a fetch is followed by one error line naming its
    URL, and the general error of the target is logged once, at the very end,
    exactly when an attempt ended in another exception. *)
Theorem scrape_url_log (max_pages : Z) (w : World) results w' events :
  scrape_url requests_get get_text url keywords iocs max_pages w
  = (results, w', events) ->
  events
  = flat_map attempt_events (fetches events)
    ++ (if any_aborts get_text (fetches events)
        then [Log (Error_general url)] else []).
Proof.
  unfold scrape_url.
  destruct (scrape_pages _ _ _ _ _ _ _ _) as [[fl rs] st] eqn:E.
  apply scrape_pages_events in E as [fs [T Sh]]. simpl in T.
  apply shape_flow in Sh.
  destruct fl; intros H; injection H as <- <- <-; rewrite T.
  - now rewrite fetches_attempt_events, Sh, app_nil_r.
  - rewrite fetches_app, fetches_attempt_events. simpl.
    now rewrite app_nil_r, Sh.
Qed.

End Log.

Lemma scrape_url_log_witness :
  snd (scrape_url scripted_get strict_text "http://ex.test" ["x"] [] 3
         [Response 404 "gone"; Response 200 "<![x[ ]]>"; Response 200 "x"])
  = [Log (Info_scraping "http://ex.test");
     Get "http://ex.test" (Response 404 "gone");
     Log (Error_fetching "http://ex.test");
     Log (Info_scraping "http://ex.test?page=2");
     Get "http://ex.test?page=2" (Response 200 "<![x[ ]]>");
     Log (Error_general "http://ex.test")].
Proof.
  destruct (scrape_url scripted_get strict_text "http://ex.test" ["x"] [] 3
         [Response 404 "gone"; Response 200 "<![x[ ]]>"; Response 200 "x"])
    as [[results w'] events] eqn:E.
  rewrite (scrape_url_log _ _ _ _ _ _ _ _ _ _ _ E).
  vm_compute in E. injection E as <- <- <-. reflexivity.
Defined.

(* ================================================================= *)
(** * How the loops compose *)

Lemma pages_upto_app (n k : nat) :
  pages_upto (n + k) = pages_upto n ++ map Z.of_nat (seq (S n) k).
Proof. unfold pages_upto. now rewrite seq_app, map_app. Qed.

Lemma is_prefix_refl {A : Type} (l : list A) : is_prefix l l.
Proof. exists []. now rewrite app_nil_r. Qed.

Section Compose.

Variable World : Type.
Variable requests_get : string -> World -> reply * World.
Variable get_text : string -> option string.
Variables (keywords iocs : list string).

(** The page loop over [pages1 ++ pages2] is the loop over [pages1]
    followed, unless it was left by an exception, by the loop over
    [pages2]. *)
Lemma scrape_pages_app (url : string) (pages1 pages2 : list Z) :
  forall results st,
    scrape_pages requests_get get_text url keywords iocs (pages1 ++ pages2)
                 results st
    = match scrape_pages requests_get get_text url keywords iocs pages1
                         results st with
      | (Continue, results1, st1) =>
          scrape_pages requests_get get_text url keywords iocs pages2
                       results1 st1
      | (Raised, results1, st1) => (Raised, results1, st1)
      end.
Proof.
  induction pages1 as [|p pages1 IH]; intros results st; simpl.
  - reflexivity.
  - destruct (scrape_page _ _ url _ _ p results st) as [[[|] rs] st1];
      [apply IH | reflexivity].
Qed.

(** Asking for more pages only adds to what a call does: with the same
    world, the result and the events of [scrape_url] for [n] pages are
    initial segments of those for [m >= n] pages. *)
Theorem scrape_url_more_pages (url : string) (n m : Z) (w : World) :
  (n <= m)%Z ->
  is_prefix
    (fst (fst (scrape_url requests_get get_text url keywords iocs n w)))
    (fst (fst (scrape_url requests_get get_text url keywords iocs m w)))
  /\ is_prefix
       (fetches (snd (scrape_url requests_get get_text url keywords iocs n w)))
       (fetches (snd (scrape_url requests_get get_text url keywords iocs m w))).
Proof.
  intros Hnm. unfold scrape_url. rewrite !range_pages_upto.
  replace (Z.to_nat m) with (Z.to_nat n + (Z.to_nat m - Z.to_nat n))%nat
    by lia.
  rewrite pages_upto_app, scrape_pages_app.
  destruct (scrape_pages _ _ url _ _ (pages_upto (Z.to_nat n)) [] _)
    as [[fl rs] st] eqn:E.
  destruct fl; simpl.
  - destruct (scrape_pages _ _ url _ _ _ rs st) as [[fl2 rs2] st2] eqn:E2.
    apply scrape_pages_inv in E2 as [ev2 [T2 [_ R2]]].
    destruct fl2; simpl; rewrite T2, R2, ?fetches_app.
    + split; eexists; reflexivity.
    + split; [eexists; reflexivity|]. simpl. rewrite app_nil_r.
      eexists; reflexivity.
  - split; apply is_prefix_refl.
Qed.

(** [main]'s loop over [urls1 ++ urls2] is the loop over [urls1] followed
    by the loop over [urls2], started from the results and the state the
    first one leaves. *)
Theorem scrape_all_app (urls1 urls2 : list string) (max_pages : Z) :
  forall all_results st,
    scrape_all requests_get get_text (urls1 ++ urls2) keywords iocs max_pages
               all_results st
    = let (all_results1, st1) :=
        scrape_all requests_get get_text urls1 keywords iocs max_pages
                   all_results st in
      scrape_all requests_get get_text urls2 keywords iocs max_pages
                 all_results1 st1.
Proof.
  induction urls1 as [|url urls1 IH]; intros all_results st; simpl.
  - reflexivity.
  - destruct (scrape_url _ _ url _ _ _ _) as [[results w1] events].
    apply IH.
Qed.

(** With a page count of zero or less nothing is requested: the call
    returns no record, leaves the world as it was and logs nothing. *)
Lemma scrape_url_no_pages (url : string) (max_pages : Z) (w : World) :
  (max_pages <= 0)%Z ->
  scrape_url requests_get get_text url keywords iocs max_pages w
  = ([], w, []).
Proof.
  intros H. unfold scrape_url. rewrite range_pages_upto.
  replace (Z.to_nat max_pages) with 0%nat by lia. reflexivity.
Qed.

End Compose.

Lemma scrape_url_more_pages_witness :
  is_prefix
    (fst (fst (scrape_url scripted_get plain_text "http://ex.test" ["a"] []
                 1 [Response 200 "a"; Response 200 "A"])))
    [mkMatch "http://ex.test" (Some "a") None "a";
     mkMatch "http://ex.test?page=2" (Some "a") None "A"].
Proof.
  assert (H : (1 <= 2)%Z) by lia.
  exact (proj1 (scrape_url_more_pages (list reply) scripted_get plain_text
                  ["a"] [] "http://ex.test" 1 2
                  [Response 200 "a"; Response 200 "A"] H)).
Defined.

(* ================================================================= *)
(** * The records of a run *)

Section RunRecords.

Variable World : Type.
Variable requests_get : string -> World -> reply * World.
Variable get_text : string -> option string.

(** The ResultSet is what the fetch attempts of the run contribute. *)
Lemma collect_contributions (args : Args) (fs : filesystem) (w : World)
    all_results st :
  collect requests_get get_text args fs w = (all_results, st) ->
  all_results
  = flat_map (page_records get_text (main_keywords args)
                           (fst (main_iocs args fs)))
             (fetches (trace st)).
Proof.
  intros H.
  destruct (collect_runs _ _ _ _ _ _ _ _ H) as [Hall Hfetch].
  set (keywords := main_keywords args) in *.
  set (iocs := fst (main_iocs args fs)) in *.
  destruct (target_runs_inv _ requests_get get_text keywords iocs
              (args_max_pages args) (args_urls args) w) as [_ Hruns].
  rewrite Hall, Hfetch. clear Hall Hfetch.
  induction (fst (target_runs requests_get get_text (args_urls args)
                    keywords iocs (args_max_pages args) w))
    as [|run runs IH]; simpl; [reflexivity|].
  rewrite flat_map_app. f_equal.
  - destruct (Hruns run (or_introl eq_refl)) as [w0 [w1 E]].
    now apply scrape_url_inv in E as [_ R].
  - apply IH. intros run' Hin. apply Hruns. now right.
Qed.

(** Where a record of the run comes from: an attempt of the run that was
    answered without an error status and whose text was extracted, and an
    entry of the keyword list or of the IOC list that hits on that text. *)
Lemma collect_record_origin (args : Args) (fs : filesystem) (w : World)
    all_results st (r : MatchRecord) :
  collect requests_get get_text args fs w = (all_results, st) ->
  In r all_results ->
  exists status_code content text,
    In (url r, Response status_code content) (fetches (trace st))
    /\ raises_for_status status_code = false
    /\ get_text content = Some text
    /\ context r = slice_to 500 text
    /\ ((exists k, In k (main_keywords args) /\ keyword_hit text k = true
                   /\ keyword r = Some (lower k) /\ ioc r = None)
        \/ (exists i, In i (fst (main_iocs args fs)) /\ ioc_hit text i = true
                      /\ ioc r = Some i /\ keyword r = None)).
Proof.
  intros H Hr. rewrite (collect_contributions _ _ _ _ _ H) in Hr.
  apply in_flat_map in Hr as [[u rep] [Hin Hrec]].
  unfold page_records in Hrec. simpl in Hrec.
  destruct (page_text get_text rep) as [text|] eqn:Et; [|destruct Hrec].
  apply page_text_succeeded in Et as [status_code [content [-> [Hs Ht]]]].
  exists status_code, content, text.
  apply in_page_matches in Hrec as [[k [Hk [Hhit ->]]]|[i [Hi [Hhit ->]]]];
    simpl; repeat split; auto.
  - left. now exists k.
  - right. now exists i.
Qed.

(** Every record of a run has exactly one of its keyword and ioc fields
    populated, and a context of at most 500 characters. *)
Theorem record_has_one_term_and_short_context
    (args : Args) (fs : filesystem) (w : World) all_results st :
  collect requests_get get_text args fs w = (all_results, st) ->
  forall r, In r all_results ->
    ((exists kw, keyword r = Some kw /\ ioc r = None)
     \/ (exists i, ioc r = Some i /\ keyword r = None))
    /\ (Str.length (context r) <= 500)%nat.
Proof.
  intros H r Hr.
  destruct (collect_record_origin _ _ _ _ _ _ H Hr)
    as [s [c [text [_ [_ [_ [Hc Hterm]]]]]]].
  split.
  - destruct Hterm as [[k [_ [_ [Hk Hi]]]]|[i [_ [_ [Hi Hk]]]]].
    + left. now exists (lower k).
    + right. now exists i.
  - rewrite Hc, slice_to_length. lia.
Qed.

(** No false positive: a record of a run belongs to a page that was fetched
    with a non-error status during the run, and its keyword occurs in the
    lowercased text of that page, or its IOC occurs verbatim in the text. *)
Theorem record_term_occurs_in_its_page
    (args : Args) (fs : filesystem) (w : World) all_results st :
  collect requests_get get_text args fs w = (all_results, st) ->
  forall r, In r all_results ->
    exists status_code content text,
      In (url r, Response status_code content) (fetches (trace st))
      /\ ~ (400 <= status_code < 600)%Z
      /\ get_text content = Some text
      /\ (forall kw, keyword r = Some kw -> occurs_in kw (lower text))
      /\ (forall i, ioc r = Some i -> occurs_in i text).
Proof.
  intros H r Hr.
  destruct (collect_record_origin _ _ _ _ _ _ H Hr)
    as [s [c [text [Hin [Hs [Ht [_ Hterm]]]]]]].
  exists s, c, text. repeat split; auto.
  - unfold raises_for_status in Hs. lia.
  - intros kw Hkw.
    destruct Hterm as [[k [_ [Hhit [E _]]]]|[i [_ [_ [_ E]]]]];
      rewrite E in Hkw; [|discriminate].
    injection Hkw as <-. now apply contains_iff.
  - intros i Hi.
    destruct Hterm as [[k [_ [_ [_ E]]]]|[j [_ [Hhit [E _]]]]];
      rewrite E in Hi; [discriminate|].
    injection Hi as <-. now apply contains_iff.
Qed.

End RunRecords.

Lemma main_iocs_from_file (args : Args) (fs : filesystem) (i : string) :
  In i (fst (main_iocs args fs)) ->
  is_trimmed i = true
  /\ exists path content line,
       args_ioc_file args = Some path
       /\ entry fs path = Readable content
       /\ In line (file_lines content)
       /\ i = strip line.
Proof.
  unfold main_iocs, read_iocs_from_file.
  destruct (args_ioc_file args) as [[|c path]|]; simpl; try tauto.
  destruct (entry fs (String c path)) as [| |content] eqn:E; simpl;
    try tauto.
  intros Hi. apply in_map_iff in Hi as [line [<- Hline]].
  apply filter_In in Hline as [Hline Hnb].
  rewrite strip_empty in Hnb. split.
  - apply strip_trimmed. now destruct (is_blank line).
  - now exists (String c path), content, line.
Qed.

(** The IOC of a record of a run is the trimmed form of a line of the IOC
    file named on the command line: it is not empty and has no white space
    at either end.  A run never reports the empty IOC, and reports no IOC at
    all without a readable IOC file. *)
Theorem record_ioc_is_a_trimmed_file_line
    (World : Type) (requests_get : string -> World -> reply * World)
    (get_text : string -> option string)
    (args : Args) (fs : filesystem) (w : World) all_results st :
  collect requests_get get_text args fs w = (all_results, st) ->
  forall r i, In r all_results -> ioc r = Some i ->
    is_trimmed i = true
    /\ i <> ""
    /\ exists path content line,
         args_ioc_file args = Some path
         /\ entry fs path = Readable content
         /\ In line (file_lines content)
         /\ i = strip line.
Proof.
  intros H r i Hr Hi.
  destruct (collect_record_origin _ _ _ _ _ _ _ _ _ H Hr)
    as [s [c [text [_ [_ [_ [_ [[k [_ [_ [_ E]]]]|[j [Hj [_ [E _]]]]]]]]]]]];
    rewrite E in Hi; [discriminate|].
  injection Hi as <-.
  destruct (main_iocs_from_file _ _ _ Hj) as [Htrim Hfile].
  repeat split; auto.
  intros ->. discriminate.
Qed.

Lemma record_has_one_term_and_short_context_witness :
  (exists i, ioc (mkMatch "http://ex.test" None (Some "ABC123") "hash ABC123")
             = Some i
             /\ keyword (mkMatch "http://ex.test" None (Some "ABC123")
                                 "hash ABC123") = None)
  /\ (Str.length "hash ABC123" <= 500)%nat.
Proof.
  pose (args := mkArgs (Some ["hash"]) (Some "iocs.txt") ["http://ex.test"]
                       "output.csv" 1).
  pose (fs := mkFs (fun _ => Readable "ABC123") (fun _ => true)).
  destruct (collect scripted_get plain_text args fs
              [Response 200 "hash ABC123"]) as [all_results st] eqn:E.
  pose proof (record_has_one_term_and_short_context _ _ _ _ _ _ _ _ E
                (mkMatch "http://ex.test" None (Some "ABC123") "hash ABC123"))
    as H.
  vm_compute in E. injection E as <- <-.
  destruct H as [[[kw [Hk _]]|Hi] Hlen].
  - simpl. auto.
  - discriminate Hk.
  - split; [exact Hi | exact Hlen].
Defined.

Lemma record_term_occurs_in_its_page_witness :
  exists status_code content text,
    In ("http://ex.test", Response status_code content)
       [("http://ex.test", Response 200 "Some MALWARE")]
    /\ plain_text content = Some text
    /\ occurs_in "malware" (lower text).
Proof.
  pose (args := mkArgs (Some ["Malware"]) None ["http://ex.test"]
                       "output.csv" 1).
  pose (fs := mkFs (fun _ => Absent) (fun _ => true)).
  destruct (collect scripted_get plain_text args fs
              [Response 200 "Some MALWARE"]) as [all_results st] eqn:E.
  pose proof (record_term_occurs_in_its_page _ _ _ _ _ _ _ _ E
                (mkMatch "http://ex.test" (Some "malware") None
                         "Some MALWARE")) as H.
  vm_compute in E. injection E as <- <-.
  destruct H as [s [c [text [Hin [_ [Ht [Hk _]]]]]]].
  - simpl. auto.
  - exists s, c, text. split; [exact Hin|]. split; [exact Ht|].
    now apply Hk.
Defined.

Lemma record_ioc_is_a_trimmed_file_line_witness :
  is_trimmed "ABC123" = true
  /\ exists path content line,
       Some "iocs.txt" = Some path
       /\ (if Str.eqb path "iocs.txt"
           then Readable ("  ABC123 " +++ String LF "") else Absent)
          = Readable content
       /\ In line (file_lines content)
       /\ "ABC123" = strip line.
Proof.
  pose (args := mkArgs None (Some "iocs.txt") ["http://ex.test"]
                       "output.csv" 1).
  pose (fs := mkFs (fun p => if Str.eqb p "iocs.txt"
                             then Readable ("  ABC123 " +++ String LF "")
                             else Absent) (fun _ => true)).
  destruct (collect scripted_get plain_text args fs
              [Response 200 "hash ABC123"]) as [all_results st] eqn:E.
  pose proof (record_ioc_is_a_trimmed_file_line _ _ _ _ _ _ _ _ E
                (mkMatch "http://ex.test" None (Some "ABC123") "hash ABC123")
                "ABC123") as H.
  vm_compute in E. injection E as <- <-.
  destruct H as [Ht [_ Hfile]].
  - simpl. auto.
  - reflexivity.
  - split; [exact Ht | exact Hfile].
Defined.

(* ================================================================= *)
(** * Runs that find nothing, and how much a run requests *)

Section Edges.

Variable infer_compression : string -> option string.
Variable archive : string -> string -> fs_entry.
Variable World : Type.
Variable requests_get : string -> World -> reply * World.
Variable get_text : string -> option string.

Lemma scrape_all_no_pages (keywords iocs : list string) (max_pages : Z)
    (urls : list string) :
  (max_pages <= 0)%Z ->
  forall all_results st,
    scrape_all requests_get get_text urls keywords iocs max_pages
               all_results st
    = (all_results, st).
Proof.
  intros HN. induction urls as [|url rest IH]; intros all_results st; simpl.
  - reflexivity.
  - rewrite scrape_url_no_pages by assumption.
    rewrite IH, !app_nil_r. now destruct st.
Qed.

(** With [--max_pages] zero or negative a run requests nothing, whatever
    the targets: the world is left as it was, the ResultSet is empty, and
    the output file, when it can be written and is not compressed, holds a
    single empty line. *)
Theorem main_without_pages (args : Args) (fs : filesystem) (w : World) :
  (args_max_pages args <= 0)%Z ->
  writable fs (args_output args) = true ->
  infer_compression (args_output args) = None ->
  let '(fs', w', events) :=
    main infer_compression archive requests_get get_text args fs w in
  w' = w
  /\ fetches events = []
  /\ entry fs' (args_output args) = Readable (String LF "").
Proof.
  intros HN Hw Hc. unfold main, collect.
  pose proof (fetches_main_iocs args fs) as Hf.
  destruct (main_iocs args fs) as [iocs events].
  rewrite scrape_all_no_pages by assumption.
  unfold save_results_to_csv, write_file, written_entry.
  rewrite Hw, Hc. simpl.
  rewrite str_eqb_refl, fetches_app. simpl in *.
  now rewrite Hf.
Qed.

Lemma page_records_no_terms (f : string * reply) :
  page_records get_text [] [] f = [].
Proof. unfold page_records. now destruct (page_text get_text (snd f)). Qed.

(** With no keyword and no IOC (none given, or an IOC file that is missing,
    unreadable or blank) the pages are still requested, but the ResultSet is
    empty whatever they hold, and the output file, when it can be written
    and is not compressed, holds a single empty line. *)
Theorem main_without_terms (args : Args) (fs : filesystem) (w : World) :
  main_keywords args = [] ->
  fst (main_iocs args fs) = [] ->
  fst (collect requests_get get_text args fs w) = []
  /\ (writable fs (args_output args) = true ->
      infer_compression (args_output args) = None ->
      entry (fst (fst (main infer_compression archive requests_get get_text
                            args fs w)))
            (args_output args)
      = Readable (String LF "")).
Proof.
  intros Hk Hi.
  destruct (collect requests_get get_text args fs w)
    as [all_results st] eqn:E.
  assert (Hall : all_results = []).
  { rewrite (collect_contributions _ _ _ _ _ _ _ _ E), Hk, Hi.
    induction (fetches (trace st)) as [|f fs' IH]; simpl; [reflexivity|].
    now rewrite page_records_no_terms. }
  split; [exact Hall|].
  intros Hw Hc. unfold main. rewrite E, Hall.
  unfold save_results_to_csv, write_file, written_entry.
  rewrite Hw, Hc. simpl.
  now rewrite str_eqb_refl.
Qed.

Lemma flat_map_length_le {A B : Type} (f : A -> list B) (n : nat)
    (l : list A) :
  (forall a, In a l -> List.length (f a) <= n)%nat ->
  (List.length (flat_map f l) <= List.length l * n)%nat.
Proof.
  induction l as [|a l IH]; intros H; simpl; [lia|].
  rewrite length_app.
  assert (List.length (f a) <= n)%nat by (apply H; now left).
  assert (List.length (flat_map f l) <= List.length l * n)%nat
    by (apply IH; intros b Hb; apply H; now right).
  lia.
Qed.

(** A run issues, for each target, at most [max_pages] requests, and with
    [max_pages >= 1] at least one; the requests of the run are those of its
    targets, one target after the other. *)
Theorem run_request_count (args : Args) (fs : filesystem) (w : World)
    all_results st :
  collect requests_get get_text args fs w = (all_results, st) ->
  let runs := fst (target_runs requests_get get_text (args_urls args)
                     (main_keywords args) (fst (main_iocs args fs))
                     (args_max_pages args) w) in
  map run_url runs = args_urls args
  /\ fetches (trace st) = flat_map (fun run => fetches (run_events run)) runs
  /\ forall run, In run runs ->
       (List.length (fetches (run_events run))
        <= Z.to_nat (args_max_pages args))%nat
       /\ ((1 <= args_max_pages args)%Z ->
           (1 <= List.length (fetches (run_events run)))%nat).
Proof.
  intros H runs.
  destruct (collect_runs _ _ _ _ _ _ _ _ H) as [_ Hfetch].
  destruct (target_runs_inv _ requests_get get_text (main_keywords args)
              (fst (main_iocs args fs)) (args_max_pages args)
              (args_urls args) w) as [Hurls Hruns].
  split; [exact Hurls|]. split; [exact Hfetch|].
  intros run Hin. destruct (Hruns run Hin) as [w0 [w1 E]].
  apply scrape_url_inv in E as [[fl Hshape] _]. split.
  - apply shape_prefix in Hshape as [Hlen _].
    now rewrite pages_upto_length in Hlen.
  - intros HN.
    destruct (Z.to_nat (args_max_pages args)) as [|m] eqn:Em; [lia|].
    unfold pages_upto in Hshape. simpl in Hshape.
    apply shape_first in Hshape as [r Hr].
    destruct (fetches (run_events run)); [discriminate | simpl; lia].
Qed.

End Edges.

Lemma main_without_pages_witness :
  entry (fst (fst (main by_extension binary_archive scripted_get plain_text
                     (mkArgs (Some ["a"]) None ["http://ex.test"] "out.csv" 0)
                     (mkFs (fun _ => Absent) (fun _ => true))
                     [Response 200 "a"])))
        "out.csv"
  = Readable (String LF "").
Proof.
  pose proof (main_without_pages by_extension binary_archive (list reply)
                scripted_get plain_text
                (mkArgs (Some ["a"]) None ["http://ex.test"] "out.csv" 0)
                (mkFs (fun _ => Absent) (fun _ => true))
                [Response 200 "a"]) as H.
  destruct (main by_extension binary_archive scripted_get plain_text _ _ _)
    as [[fs' w'] events].
  apply H; [simpl; lia | reflexivity | reflexivity].
Defined.

Lemma main_without_terms_witness :
  fst (collect scripted_get plain_text
         (mkArgs None (Some "missing.txt") ["http://ex.test"] "out.csv" 1)
         (mkFs (fun _ => Absent) (fun _ => true))
         [Response 200 "anything"])
  = [].
Proof.
  apply (main_without_terms by_extension binary_archive (list reply)
           scripted_get plain_text
           (mkArgs None (Some "missing.txt") ["http://ex.test"] "out.csv" 1)
           (mkFs (fun _ => Absent) (fun _ => true))
           [Response 200 "anything"]); reflexivity.
Defined.

Lemma run_request_count_witness :
  (List.length [("http://a.test", Response 200 "x");
                ("http://a.test?page=2", OtherException)] <= 3)%nat
  /\ (1 <= List.length [("http://a.test", Response 200 "x");
                        ("http://a.test?page=2", OtherException)])%nat.
Proof.
  pose (args := mkArgs None None ["http://a.test"; "http://b.test"]
                       "out.csv" 3).
  pose (fs := mkFs (fun _ => Absent) (fun _ => true)).
  destruct (collect scripted_get plain_text args fs
              [Response 200 "x"; OtherException])
    as [all_results st] eqn:E.
  destruct (run_request_count _ _ _ _ _ _ _ _ E) as [_ [_ Hrun]].
  destruct (Hrun (mkRun "http://a.test" []
                    [Log (Info_scraping "http://a.test");
                     Get "http://a.test" (Response 200 "x");
                     Log (Info_scraping "http://a.test?page=2");
                     Get "http://a.test?page=2" OtherException;
                     Log (Error_general "http://a.test")]))
    as [Hmax Hmin].
  - left. reflexivity.
  - split; [exact Hmax | apply Hmin; simpl; lia].
Defined.

(* ================================================================= *)
(** * What [main] does to the file system and to the log *)

Lemma attempt_events_no_save (f : string * reply) :
  Forall (fun e => is_save_log e = false) (attempt_events f).
Proof.
  unfold attempt_events. destruct (fetch_failed (snd f)); simpl;
    repeat constructor.
Qed.

Lemma Forall_flat_map {A B : Type} (P : B -> Prop) (f : A -> list B)
    (l : list A) :
  (forall a, In a l -> Forall P (f a)) -> Forall P (flat_map f l).
Proof.
  induction l as [|a l IH]; intros H; simpl; [constructor|].
  apply Forall_app. split; [apply H; now left|].
  apply IH. intros b Hb. apply H. now right.
Qed.

Section MainEffects.

Variable infer_compression : string -> option string.
Variable archive : string -> string -> fs_entry.
Variable World : Type.
Variable requests_get : string -> World -> reply * World.
Variable get_text : string -> option string.

Lemma scrape_url_no_save (url : string) (keywords iocs : list string)
    (max_pages : Z) (w : World) results w' events :
  scrape_url requests_get get_text url keywords iocs max_pages w
  = (results, w', events) ->
  Forall (fun e => is_save_log e = false) events.
Proof.
  unfold scrape_url.
  destruct (scrape_pages _ _ _ _ _ _ _ _) as [[fl rs] st] eqn:E.
  apply scrape_pages_events in E as [fs [T _]]. simpl in T.
  assert (Hfs : Forall (fun e => is_save_log e = false)
                       (flat_map attempt_events fs))
    by (apply Forall_flat_map; intros f _; apply attempt_events_no_save).
  destruct fl; intros H; injection H as <- <- <-; rewrite T.
  - exact Hfs.
  - apply Forall_app. split; [exact Hfs | repeat constructor].
Qed.

Lemma collect_no_save (args : Args) (fs : filesystem) (w : World) :
  Forall (fun e => is_save_log e = false)
         (trace (snd (collect requests_get get_text args fs w))).
Proof.
  unfold collect.
  assert (Hi : Forall (fun e => is_save_log e = false)
                      (snd (main_iocs args fs))).
  { unfold main_iocs, read_iocs_from_file.
    destruct (args_ioc_file args) as [[|c path]|]; simpl; try constructor.
    destruct (entry fs (String c path)); simpl; repeat constructor. }
  destruct (main_iocs args fs) as [iocs events].
  rewrite scrape_all_runs. simpl. apply Forall_app. split; [exact Hi|].
  destruct (target_runs_inv _ requests_get get_text (main_keywords args)
              iocs (args_max_pages args) (args_urls args) w) as [_ Hruns].
  apply Forall_flat_map. intros run Hin.
  destruct (Hruns run Hin) as [w0 [w1 E]].
  now apply scrape_url_no_save in E.
Qed.

(** A run changes at most one file, the output file, and never what can be
    written; when the output cannot be written the file system is left as
    it was.  The writer reports exactly once, in the last line of the log:
    that the results were saved, or that saving failed. *)
Theorem main_touches_only_the_output_file
    (args : Args) (fs : filesystem) (w : World) :
  let '(fs', w', events) :=
    main infer_compression archive requests_get get_text args fs w in
  (forall p, p <> args_output args -> entry fs' p = entry fs p)
  /\ (forall p, writable fs' p = writable fs p)
  /\ (writable fs (args_output args) = false -> fs' = fs)
  /\ exists before,
       events
       = before ++ [Log (if writable fs (args_output args)
                         then Info_saved (args_output args)
                         else Error_saving)]
       /\ Forall (fun e => is_save_log e = false) before.
Proof.
  unfold main. pose proof (collect_no_save args fs w) as Hns.
  destruct (collect requests_get get_text args fs w) as [all_results st].
  unfold save_results_to_csv, write_file.
  destruct (writable fs (args_output args)) eqn:Hw; simpl in *.
  - repeat split; auto.
    + intros p Hp. apply str_eqb_neq in Hp. now rewrite Hp.
    + discriminate.
    + now exists (trace st).
  - repeat split; auto. now exists (trace st).
Qed.

End MainEffects.

(* ================================================================= *)
(** * The page URLs of a target are distinct *)

Lemma append_length (a b : string) :
  Str.length (a +++ b) = (Str.length a + Str.length b)%nat.
Proof. induction a; simpl; congruence. Qed.

Lemma append_cancel_l (a b c : string) : a +++ b = a +++ c -> b = c.
Proof. induction a as [|x a IH]; simpl; [auto|]. intros H. injection H. auto. Qed.

Lemma to_int_not_nil (k : Z) :
  Z.to_int k <> Decimal.Pos Decimal.Nil /\ Z.to_int k <> Decimal.Neg Decimal.Nil.
Proof.
  split; intros H; pose proof (DecimalZ.of_to k) as E; rewrite H in E;
    simpl in E; subst k; discriminate H.
Qed.

Lemma of_std_inj (s t : Stdlib.Strings.String.string) :
  Str.of_std s = Str.of_std t -> s = t.
Proof.
  revert t; induction s as [|a s IH]; intros [|b t]; simpl;
    try discriminate; [reflexivity|].
  intros H. injection H as -> H. f_equal. now apply IH.
Qed.

(** [str] is one-to-one: two integers with the same decimal text are
    equal. *)
Lemma str_inj (j k : Z) : str j = str k -> j = k.
Proof.
  unfold str. intros H. apply of_std_inj in H.
  destruct (to_int_not_nil j) as [Hj1 Hj2].
  destruct (to_int_not_nil k) as [Hk1 Hk2].
  pose proof (NilZero.isi _ Hj1 Hj2) as Ej.
  pose proof (NilZero.isi _ Hk1 Hk2) as Ek.
  rewrite H, Ek in Ej. injection Ej as Ej.
  rewrite <- (DecimalZ.of_to j), <- (DecimalZ.of_to k). now rewrite Ej.
Qed.

Lemma page_url_inj (url : string) (j k : Z) :
  (1 <= j)%Z -> (1 <= k)%Z -> page_url url j = page_url url k -> j = k.
Proof.
  intros Hj Hk. unfold page_url.
  destruct (1 <? j)%Z eqn:Ej, (1 <? k)%Z eqn:Ek;
    try apply Z.ltb_lt in Ej; try apply Z.ltb_lt in Ek;
    try apply Z.ltb_ge in Ej; try apply Z.ltb_ge in Ek.
  - destruct (contains "?" url); intros H;
      apply append_cancel_l, append_cancel_l in H; now apply str_inj.
  - intros H. apply (f_equal Str.length) in H.
    destruct (contains "?" url); rewrite !append_length in H; simpl in H; lia.
  - intros H. apply (f_equal Str.length) in H.
    destruct (contains "?" url); rewrite !append_length in H; simpl in H; lia.
  - lia.
Qed.

Lemma NoDup_map_in {A B : Type} (f : A -> B) (l : list A) :
  (forall x y, In x l -> In y l -> f x = f y -> x = y) ->
  NoDup l -> NoDup (map f l).
Proof.
  induction l as [|a l IH]; intros Hinj Hnd; simpl; [constructor|].
  inversion Hnd as [|? ? Hnotin Hnd']; subst. constructor.
  - intros Hin. apply in_map_iff in Hin as [b [Hb Hin]].
    assert (b = a) by (apply Hinj; simpl; auto). now subst b.
  - apply IH; [|assumption]. intros x y Hx Hy. apply Hinj; simpl; auto.
Qed.

Lemma pages_upto_NoDup (n : nat) : NoDup (pages_upto n).
Proof.
  unfold pages_upto. apply NoDup_map_in; [|apply seq_NoDup].
  intros x y _ _ H. lia.
Qed.

Lemma pages_upto_positive (n : nat) (k : Z) :
  In k (pages_upto n) -> (1 <= k)%Z.
Proof.
  unfold pages_upto. intros H. apply in_map_iff in H as [i [<- Hi]].
  apply in_seq in Hi. lia.
Qed.

(** A call of [scrape_url] never requests the same URL twice: the URLs of
    its pages are pairwise different. *)
Theorem scrape_url_requests_distinct_urls
    (World : Type) (requests_get : string -> World -> reply * World)
    (get_text : string -> option string)
    (url : string) (keywords iocs : list string) (max_pages : Z) (w : World)
    results w' events :
  scrape_url requests_get get_text url keywords iocs max_pages w
  = (results, w', events) ->
  NoDup (map fst (fetches events)).
Proof.
  intros H. apply scrape_url_inv in H as [[fl Hshape] _].
  destruct (shape_prefix _ _ _ _ _ Hshape) as [Hlen Hmap].
  rewrite pages_upto_length in Hlen.
  rewrite pages_upto_firstn in Hmap by assumption.
  rewrite Hmap. apply NoDup_map_in; [|apply pages_upto_NoDup].
  intros j k Hj Hk. apply page_url_inj; eapply pages_upto_positive; eauto.
Qed.

Lemma scrape_url_requests_distinct_urls_witness :
  NoDup ["http://ex.test?q=1"; "http://ex.test?q=1&page=2";
         "http://ex.test?q=1&page=3"].
Proof.
  destruct (scrape_url scripted_get plain_text "http://ex.test?q=1" [] [] 3
              []) as [[results w'] events] eqn:E.
  pose proof (scrape_url_requests_distinct_urls _ _ _ _ _ _ _ _ _ _ _ E)
    as H.
  vm_compute in E. injection E as <- <- <-. exact H.
Defined.

(* ================================================================= *)
(** * More on the IOC loader *)

Lemma occurs_in_refl (s : string) : occurs_in s s.
Proof. exists "", "". simpl. now rewrite append_nil_r. Qed.

Lemma occurs_in_extend (b p t q : string) :
  occurs_in b t -> occurs_in b (p +++ t +++ q).
Proof.
  intros [x [y ->]]. exists (p +++ x), (y +++ q).
  now rewrite !append_assoc.
Qed.

Lemma occurs_in_trans (a b c : string) :
  occurs_in a b -> occurs_in b c -> occurs_in a c.
Proof. intros Hab [p [q ->]]. now apply occurs_in_extend. Qed.

Lemma occurs_in_left (b p t : string) :
  occurs_in b t -> occurs_in b (p +++ t).
Proof.
  intros H. rewrite <- (append_nil_r t). now apply occurs_in_extend.
Qed.

Lemma occurs_in_prefix (a q : string) : occurs_in a (a +++ q).
Proof. exists "", q. reflexivity. Qed.

Lemma has_line_end_append (a b : string) :
  has_line_end (a +++ b) = has_line_end a || has_line_end b.
Proof.
  induction a as [|c a IH]; simpl; [reflexivity|].
  now rewrite IH, orb_assoc.
Qed.

Lemma lstrip_suffix (s : string) : exists p, s = p +++ lstrip s.
Proof.
  induction s as [|c s [p IH]]; simpl; [now exists ""|].
  destruct (is_space c).
  - exists (String c p). simpl. congruence.
  - now exists "".
Qed.

Lemma rstrip_prefix (s : string) : exists q, s = rstrip s +++ q.
Proof.
  induction s as [|c s [q IH]]; simpl; [now exists ""|].
  destruct (is_space c && is_empty (rstrip s)) eqn:E.
  - now exists (String c s).
  - exists q. simpl. congruence.
Qed.

(** [strip] returns a piece of its argument. *)
Lemma strip_occurs (s : string) : occurs_in (strip s) s.
Proof.
  unfold strip. destruct (lstrip_suffix s) as [p Hp].
  destruct (rstrip_prefix (lstrip s)) as [q Hq].
  exists p, q. now rewrite <- Hq.
Qed.

Lemma rstrip_app_space (c : char) (t : string) :
  is_space c = true -> rstrip (t +++ String c "") = rstrip t.
Proof.
  intros Hc. induction t as [|d t IH]; simpl.
  - now rewrite Hc.
  - now rewrite IH.
Qed.

Lemma lstrip_app_space (c : char) (t : string) :
  is_space c = true ->
  lstrip (t +++ String c "")
  = if is_blank t then "" else lstrip t +++ String c "".
Proof.
  intros Hc. induction t as [|d t IH]; simpl.
  - now rewrite Hc.
  - destruct (is_space d); simpl; [exact IH | reflexivity].
Qed.

(** The line end that file iteration leaves on a line does not survive
    [strip]. *)
Lemma strip_app_space (c : char) (t : string) :
  is_space c = true -> strip (t +++ String c "") = strip t.
Proof.
  intros Hc. unfold strip. rewrite lstrip_app_space by assumption.
  destruct (is_blank t) eqn:Hb.
  - rewrite <- lstrip_blank in Hb. rewrite <- rstrip_empty in Hb.
    now destruct (rstrip (lstrip t)).
  - now apply rstrip_app_space.
Qed.

(** Every line that file iteration yields is a piece of the text without
    a line end inside, possibly followed by the line feed. *)
Lemma lines_from_pieces (s : string) :
  forall cur after_cr,
    has_line_end cur = false ->
    (after_cr = true -> cur = "") ->
    Forall (fun line =>
              exists body,
                (line = body \/ line = body +++ String LF "")
                /\ has_line_end body = false
                /\ occurs_in body (cur +++ s))
           (lines_from cur after_cr s).
Proof.
  induction s as [|c s IH]; intros cur after_cr Hcur Hcr; simpl.
  - destruct (is_empty cur); constructor; [|constructor].
    exists cur. repeat split; auto. apply occurs_in_prefix.
  - destruct (Char.eqb c LF) eqn:Elf; [|destruct (Char.eqb c CR) eqn:Ecr].
    + destruct after_cr.
      * rewrite (Hcr eq_refl). simpl.
        eapply Forall_impl; [|apply (IH "" false); auto; discriminate].
        intros line [body [Hl [Hb Ho]]]. exists body. repeat split; auto.
        simpl in Ho. now apply (occurs_in_left body (String c "") s).
      * constructor.
        -- exists cur. repeat split; auto. apply occurs_in_prefix.
        -- eapply Forall_impl; [|apply (IH "" false); auto; discriminate].
           intros line [body [Hl [Hb Ho]]]. exists body. repeat split; auto.
           simpl in Ho.
           now apply (occurs_in_left body (cur +++ String c "") s) in Ho;
             rewrite append_assoc in Ho.
    + constructor.
      * exists cur. repeat split; auto. apply occurs_in_prefix.
      * eapply Forall_impl; [|apply (IH "" true); auto].
        intros line [body [Hl [Hb Ho]]]. exists body. repeat split; auto.
        simpl in Ho.
        now apply (occurs_in_left body (cur +++ String c "") s) in Ho;
          rewrite append_assoc in Ho.
    + eapply Forall_impl; [|apply (IH (cur +++ String c "") false)].
      * intros line [body [Hl [Hb Ho]]]. exists body. repeat split; auto.
        now rewrite append_assoc in Ho.
      * rewrite has_line_end_append, Hcur. simpl. now rewrite Elf, Ecr.
      * discriminate.
Qed.

(** The loader invents nothing: every IOC it returns occurs verbatim in the
    text of the file, and holds no line end. *)
Theorem loaded_ioc_occurs_in_the_file
    (fs : filesystem) (ioc_file_path content : string) :
  entry fs ioc_file_path = Readable content ->
  forall i, In i (fst (read_iocs_from_file fs ioc_file_path)) ->
    occurs_in i content /\ has_line_end i = false.
Proof.
  intros E i Hi. unfold read_iocs_from_file in Hi. rewrite E in Hi.
  simpl in Hi. apply in_map_iff in Hi as [line [<- Hline]].
  apply filter_In in Hline as [Hline _].
  pose proof (lines_from_pieces content "" false eq_refl
                ltac:(discriminate)) as Hall.
  rewrite Forall_forall in Hall.
  destruct (Hall line Hline) as [body [Hl [Hb Ho]]]. simpl in Ho.
  assert (Hs : strip line = strip body).
  { destruct Hl as [->| ->]; [reflexivity|].
    apply strip_app_space. reflexivity. }
  rewrite Hs. pose proof (strip_occurs body) as Hsb. split.
  - now apply (occurs_in_trans _ body).
  - destruct Hsb as [p [q Hq]]. rewrite Hq in Hb.
    rewrite !has_line_end_append in Hb.
    now destruct (has_line_end p), (has_line_end (strip body)).
Qed.

Lemma loaded_ioc_occurs_in_the_file_witness :
  occurs_in "evil.test" ("# list" +++ String LF ("  evil.test " +++ String CR ""))
  /\ has_line_end "evil.test" = false.
Proof.
  apply (loaded_ioc_occurs_in_the_file
           (mkFs (fun _ => Readable ("# list" +++ String LF
                                     ("  evil.test " +++ String CR "")))
                 (fun _ => true))
           "iocs.txt" _ eq_refl).
  simpl. auto.
Defined.

Lemma lines_from_crlf (s : string) :
  has_cr s = false ->
  forall cur after_cr,
    lines_from cur after_cr (with_line_end (String CR (String LF "")) s)
    = lines_from cur false s.
Proof.
  induction s as [|c s IH]; intros Hcr cur after_cr; simpl in *.
  - now destruct after_cr.
  - apply orb_false_iff in Hcr as [Hc Hs].
    destruct (Char.eqb c LF) eqn:Elf; simpl.
    + now rewrite IH.
    + rewrite Elf, Hc. now apply IH.
Qed.

Lemma lines_from_cr (s : string) :
  has_cr s = false ->
  forall cur after_cr,
    lines_from cur after_cr (with_line_end (String CR "") s)
    = lines_from cur false s.
Proof.
  induction s as [|c s IH]; intros Hcr cur after_cr; simpl in *.
  - now destruct after_cr.
  - apply orb_false_iff in Hcr as [Hc Hs].
    destruct (Char.eqb c LF) eqn:Elf; simpl.
    + now rewrite IH.
    + rewrite Elf, Hc. now apply IH.
Qed.

(** The loader does not care how the file marks its line ends: a file
    written with CR LF or with CR line ends loads to the same IOC list as
    the same text written with line feeds. *)
Theorem loader_ignores_line_end_convention
    (fs fs' : filesystem) (ioc_file_path content nl : string) :
  has_cr content = false ->
  nl = String CR (String LF "") \/ nl = String CR "" ->
  entry fs ioc_file_path = Readable content ->
  entry fs' ioc_file_path = Readable (with_line_end nl content) ->
  read_iocs_from_file fs' ioc_file_path
  = read_iocs_from_file fs ioc_file_path.
Proof.
  intros Hcr Hnl E E'. unfold read_iocs_from_file. rewrite E, E'.
  unfold file_lines.
  destruct Hnl as [-> | ->];
    [rewrite lines_from_crlf | rewrite lines_from_cr]; auto.
Qed.

Lemma loader_ignores_line_end_convention_witness :
  read_iocs_from_file
    (mkFs (fun _ => Readable ("a.test" +++ String CR (String LF
                              (" b.test" +++ String CR (String LF "")))))
          (fun _ => true)) "iocs.txt"
  = (["a.test"; "b.test"], []).
Proof.
  rewrite (loader_ignores_line_end_convention
             (mkFs (fun _ => Readable ("a.test" +++ String LF
                              (" b.test" +++ String LF ""))) (fun _ => true))
             (mkFs (fun _ => Readable ("a.test" +++ String CR (String LF
                              (" b.test" +++ String CR (String LF "")))))
                   (fun _ => true))
             "iocs.txt" ("a.test" +++ String LF (" b.test" +++ String LF ""))
             (String CR (String LF "")) eq_refl (or_introl eq_refl)
             eq_refl eq_refl).
  reflexivity.
Defined.

(* ================================================================= *)
(** * More on the matcher *)

Lemma keyword_records_lower (current_url text : string)
    (keywords : list string) :
  keyword_records current_url text keywords
  = map (fun kw => mkMatch current_url (Some kw) None (slice_to 500 text))
        (filter (fun kw => contains kw (lower text)) (map lower keywords)).
Proof.
  unfold keyword_records.
  induction keywords as [|k ks IH]; simpl; [reflexivity|].
  unfold keyword_hit at 1.
  destruct (contains (lower k) (lower text)); simpl; now rewrite IH.
Qed.

Lemma map_keyword_ioc_records (current_url text : string)
    (iocs : list string) :
  map keyword (ioc_records current_url text iocs)
  = map (fun _ => None) (filter (ioc_hit text) iocs).
Proof. unfold ioc_records. now rewrite map_map. Qed.

(** Letter case never changes what the keyword search reports.  Two keyword
    lists that agree once lowercased give the same records on a page; and on
    two pages whose texts agree once lowercased, the same keywords are
    reported, in the same order. *)
Theorem keyword_search_ignores_case
    (current_url text text' : string) (keywords keywords' iocs : list string) :
  map lower keywords = map lower keywords' ->
  match_page current_url text keywords iocs []
  = match_page current_url text keywords' iocs []
  /\ (lower text = lower text' ->
      map keyword (match_page current_url text keywords [] [])
      = map keyword (match_page current_url text' keywords' [] [])).
Proof.
  intros Hk. rewrite !match_page_spec. simpl. unfold page_matches.
  rewrite !keyword_records_lower, Hk. split; [reflexivity|].
  intros Ht. rewrite Ht. simpl. rewrite !app_nil_r, !map_map. reflexivity.
Qed.

Lemma keyword_search_ignores_case_witness :
  match_page "http://ex.test" "About Malware" ["MALWARE"; "about"] ["x"] []
  = match_page "http://ex.test" "About Malware" ["malware"; "ABOUT"] ["x"] [].
Proof.
  apply (keyword_search_ignores_case "http://ex.test" "About Malware"
           "About Malware" ["MALWARE"; "about"] ["malware"; "ABOUT"] ["x"]).
  reflexivity.
Defined.

Lemma page_matches_length (current_url text : string)
    (keywords iocs : list string) :
  (List.length (page_matches current_url text keywords iocs)
   <= List.length keywords + List.length iocs)%nat.
Proof.
  unfold page_matches, keyword_records, ioc_records.
  rewrite length_app, !length_map.
  pose proof (filter_length_le (keyword_hit text) keywords).
  pose proof (filter_length_le (ioc_hit text) iocs).
  lia.
Qed.

(** A page is reported at most once per listed keyword and once per listed
    IOC: the ResultSet of a run has at most (number of keywords + number of
    IOCs) records for each request the run made. *)
Theorem run_record_count
    (World : Type) (requests_get : string -> World -> reply * World)
    (get_text : string -> option string)
    (args : Args) (fs : filesystem) (w : World) all_results st :
  collect requests_get get_text args fs w = (all_results, st) ->
  (List.length all_results
   <= List.length (fetches (trace st))
      * (List.length (main_keywords args)
         + List.length (fst (main_iocs args fs))))%nat.
Proof.
  intros H. rewrite (collect_contributions _ _ _ _ _ _ _ _ H).
  apply flat_map_length_le. intros f _.
  unfold page_records. destruct (page_text get_text (snd f)); simpl.
  - apply page_matches_length.
  - lia.
Qed.

Lemma run_record_count_witness :
  (List.length [mkMatch "http://ex.test" (Some "a") None "a b";
                mkMatch "http://ex.test" (Some "b") None "a b"]
   <= 2 * (2 + 0))%nat.
Proof.
  pose (args := mkArgs (Some ["a"; "b"]) None ["http://ex.test"]
                       "out.csv" 2).
  pose (fs := mkFs (fun _ => Absent) (fun _ => true)).
  destruct (collect scripted_get plain_text args fs [Response 200 "a b"])
    as [all_results st] eqn:E.
  pose proof (run_record_count _ _ _ _ _ _ _ _ E) as H.
  vm_compute in E. injection E as <- <-. exact H.
Defined.
